(** * WebRTCService: the negotiation orchestrator of the two-party call client

    A shallow embedding of the [WebRTCService] class.  The repository holds
    two revisions of the class:

    - the perfect-negotiation revision (the file whose path is not recorded;
      it declares [makingOffer], [ignoreOffer], [isPolite] and the two
      pre-created transceivers), embedded at top level;
    - [src/services/WebRTCService.ts], which guards offers and answers on the
      presence of a remote description, embedded in [Module Legacy].

    The class is stateful and asynchronous.  Its fields become the record
    [Service]; a handler becomes a function in the monad [M], which threads
    the [World] (the object, the ordered trace of everything the handler did
    to the outside, and a snapshot of the object at every [await]) and
    carries JavaScript exceptions.  State changes made before a throw stay,
    as in JavaScript.  The media engine (react-native-webrtc), socket.io and
    the JSON built-ins are external: their answers are supplied by a value of
    the record [Engine], a variable of the development. *)

From Stdlib Require Import String Ascii List ZArith Bool Lia DecimalString.
Import ListNotations.
Local Open Scope string_scope.
Local Open Scope bool_scope.
Local Open Scope list_scope.

(* ===================================================================== *)
(** * JavaScript values *)
(* ===================================================================== *)

(** Payloads arrive typed [any]; they are JSON data.  Numbers are the
    integers (those below 10^21 in magnitude print in plain decimal).
    An object is its list of own properties, first binding of a key wins. *)
#[warnings="-register-all"]
Inductive JsVal : Type :=
| JUndefined
| JNull
| JBool (b : bool)
| JNum (n : Z)
| JStr (s : string)
| JArr (items : list JsVal)
| JObj (fields : list (string * JsVal)).

Fixpoint assoc (k : string) (fields : list (string * JsVal)) : JsVal :=
  match fields with
  | [] => JUndefined
  | (k', v) :: rest => if (k =? k')%string then v else assoc k rest
  end.

(** [v.k] for a value that is neither [undefined] nor [null]: own property
    of an object, [undefined] on anything else (none of the keys read by the
    service is a prototype property of a primitive or of an array). *)
Definition js_get (v : JsVal) (k : string) : JsVal :=
  match v with
  | JObj fields => assoc k fields
  | _ => JUndefined
  end.

(** [!!v] *)
Definition truthy (v : JsVal) : bool :=
  match v with
  | JUndefined | JNull => false
  | JBool b => b
  | JNum n => negb (n =? 0)%Z
  | JStr s => negb (s =? "")%string
  | JArr _ | JObj _ => true
  end.

Definition string_of_Z (n : Z) : string :=
  NilZero.string_of_int (Z.to_int n).

(** [String(v)]; a plain object prints as [[object Object]], an array as its
    elements joined by commas with [null] and [undefined] left empty. *)
Fixpoint js_String (v : JsVal) : string :=
  match v with
  | JUndefined => "undefined"
  | JNull => "null"
  | JBool true => "true"
  | JBool false => "false"
  | JNum n => string_of_Z n
  | JStr s => s
  | JArr items =>
      let item x :=
        match x with
        | JUndefined | JNull => ""
        | _ => js_String x
        end in
      (fix join (l : list JsVal) : string :=
         match l with
         | [] => ""
         | [x] => item x
         | x :: rest => (item x ++ "," ++ join rest)%string
         end) items
  | JObj _ => "[object Object]"
  end.

(** [a > b] on strings: lexicographic order of the code units. *)
Definition string_gt (a b : string) : bool := String.ltb b a.

(** [s.includes(sub)] *)
Fixpoint includes (s sub : string) : bool :=
  if String.prefix sub s then true
  else match s with
       | EmptyString => false
       | String _ rest => includes rest sub
       end.

Definition keys (fields : list (string * JsVal)) : list string :=
  map fst fields.

Definition keys_of (v : JsVal) : list string :=
  match v with
  | JObj fields => keys fields
  | _ => []
  end.

(** [k in v], for an own property. *)
Definition has_field (k : string) (v : JsVal) : bool :=
  match v with
  | JObj fields => existsb (String.eqb k) (keys fields)
  | _ => false
  end.

(* ===================================================================== *)
(** * Exceptions *)
(* ===================================================================== *)

(** What is thrown is an [Error]; the handlers only read its [message]. *)
Record JsError : Type := mkError { message : string }.

Inductive Result (A : Type) : Type :=
| Ok (a : A)
| Throw (e : JsError).
Arguments Ok {A} a.
Arguments Throw {A} e.

(* ===================================================================== *)
(** * Objects owned by the media engine and by socket.io *)
(* ===================================================================== *)

Record Track : Type := mkTrack {
  track_id : nat;
  kind : string;
  enabled : bool;
  has_switchCamera : bool      (* the track offers [_switchCamera] *)
}.

(** A [MediaStream] through [getTracks()]. *)
Definition MediaStream : Type := list Track.

Definition track_to_js (t : Track) : JsVal :=
  JObj [("id", JNum (Z.of_nat (track_id t))); ("kind", JStr (kind t));
        ("enabled", JBool (enabled t))].

Definition stream_to_js (s : MediaStream) : JsVal := JArr (map track_to_js s).

Record Transceiver : Type := mkTransceiver {
  t_kind : string;
  t_track : option nat;        (* id of the track its sender carries *)
  t_from_addTrack : bool
}.

(** The engine's state of one connection: the attributes the service reads
    and the senders it fills. *)
Record PcState : Type := mkPcState {
  signalingState : string;
  localDescription : JsVal;
  remoteDescription : JsVal;
  iceConnectionState : string;
  transceivers : list Transceiver;
  closed : bool
}.

(** A connection object: its identity and its current state. *)
Record PeerConnection : Type := mkPC {
  pc_id : nat;
  pc_state : PcState
}.

(** A transceiver object as the service holds it: the connection that owns
    it and its position there. *)
Record TransceiverRef : Type := mkTransceiverRef {
  tr_owner : nat;
  tr_slot : nat
}.

Record DataChannel : Type := mkDataChannel {
  dc_owner : nat;
  readyState : string
}.

Record Socket : Type := mkSocket {
  url : string;
  connected : bool
}.

Definition fresh_pc_state : PcState :=
  {| signalingState := "stable"; localDescription := JNull;
     remoteDescription := JNull; iceConnectionState := "new";
     transceivers := []; closed := false |}.

(** The outcome of opening the socket: the [connect] event, the
    [connect_error] event, or neither before the ten-second timer. *)
Inductive ConnectOutcome : Type :=
| Connects
| ConnectError (e : JsError)
| NeverConnects.

(** The answers of the external collaborators.  Each operation on a
    connection maps the connection's state to a new one or throws. *)
Record Engine : Type := mkEngine {
  io_connect : string -> ConnectOutcome;
  getUserMedia : JsVal -> Result MediaStream;
  addTransceiver : PcState -> string -> Result (nat * PcState);
  createDataChannel : PcState -> string -> Result PcState;
  pc_createOffer : PcState -> JsVal -> Result JsVal;
  pc_createAnswer : PcState -> Result JsVal;
  setLocalDescription : PcState -> JsVal -> Result PcState;
  setRemoteDescription : PcState -> JsVal -> Result PcState;
  addIceCandidate : PcState -> JsVal -> Result PcState;
  addTrack : PcState -> Track -> Result PcState;
  replaceTrack : PcState -> nat -> Track -> PcState;
  pc_close : PcState -> PcState;
  JSON_stringify : JsVal -> string;
  JSON_parse : string -> Result JsVal
}.

(* ===================================================================== *)
(** * The service object *)
(* ===================================================================== *)

Record Service : Type := mkService {
  socket : option Socket;
  peerConnection : option PeerConnection;
  localStream : option MediaStream;
  dataChannel : option DataChannel;
  callbacks : option nat;
  roomId : string;
  userId : string;
  isInitialized : bool;
  makingOffer : bool;
  ignoreOffer : bool;
  isPolite : bool;
  socketId : option string;
  audioTransceiver : option TransceiverRef;
  videoTransceiver : option TransceiverRef
}.

(** The object as the field initialisers of the class leave it. *)
Definition new_WebRTCService : Service :=
  {| socket := None; peerConnection := None; localStream := None;
     dataChannel := None; callbacks := None; roomId := ""; userId := "";
     isInitialized := false; makingOffer := false; ignoreOffer := false;
     isPolite := false; socketId := None; audioTransceiver := None;
     videoTransceiver := None |}.

Definition set_socket (v : option Socket) (s : Service) : Service :=
  mkService v (peerConnection s) (localStream s) (dataChannel s) (callbacks s)
    (roomId s) (userId s) (isInitialized s) (makingOffer s) (ignoreOffer s)
    (isPolite s) (socketId s) (audioTransceiver s) (videoTransceiver s).
Definition set_peerConnection (v : option PeerConnection) (s : Service) : Service :=
  mkService (socket s) v (localStream s) (dataChannel s) (callbacks s)
    (roomId s) (userId s) (isInitialized s) (makingOffer s) (ignoreOffer s)
    (isPolite s) (socketId s) (audioTransceiver s) (videoTransceiver s).
Definition set_localStream (v : option MediaStream) (s : Service) : Service :=
  mkService (socket s) (peerConnection s) v (dataChannel s) (callbacks s)
    (roomId s) (userId s) (isInitialized s) (makingOffer s) (ignoreOffer s)
    (isPolite s) (socketId s) (audioTransceiver s) (videoTransceiver s).
Definition set_dataChannel (v : option DataChannel) (s : Service) : Service :=
  mkService (socket s) (peerConnection s) (localStream s) v (callbacks s)
    (roomId s) (userId s) (isInitialized s) (makingOffer s) (ignoreOffer s)
    (isPolite s) (socketId s) (audioTransceiver s) (videoTransceiver s).
Definition set_callbacks (v : option nat) (s : Service) : Service :=
  mkService (socket s) (peerConnection s) (localStream s) (dataChannel s) v
    (roomId s) (userId s) (isInitialized s) (makingOffer s) (ignoreOffer s)
    (isPolite s) (socketId s) (audioTransceiver s) (videoTransceiver s).
Definition set_roomId (v : string) (s : Service) : Service :=
  mkService (socket s) (peerConnection s) (localStream s) (dataChannel s)
    (callbacks s) v (userId s) (isInitialized s) (makingOffer s)
    (ignoreOffer s) (isPolite s) (socketId s) (audioTransceiver s)
    (videoTransceiver s).
Definition set_userId (v : string) (s : Service) : Service :=
  mkService (socket s) (peerConnection s) (localStream s) (dataChannel s)
    (callbacks s) (roomId s) v (isInitialized s) (makingOffer s)
    (ignoreOffer s) (isPolite s) (socketId s) (audioTransceiver s)
    (videoTransceiver s).
Definition set_isInitialized (v : bool) (s : Service) : Service :=
  mkService (socket s) (peerConnection s) (localStream s) (dataChannel s)
    (callbacks s) (roomId s) (userId s) v (makingOffer s) (ignoreOffer s)
    (isPolite s) (socketId s) (audioTransceiver s) (videoTransceiver s).
Definition set_makingOffer (v : bool) (s : Service) : Service :=
  mkService (socket s) (peerConnection s) (localStream s) (dataChannel s)
    (callbacks s) (roomId s) (userId s) (isInitialized s) v (ignoreOffer s)
    (isPolite s) (socketId s) (audioTransceiver s) (videoTransceiver s).
Definition set_ignoreOffer (v : bool) (s : Service) : Service :=
  mkService (socket s) (peerConnection s) (localStream s) (dataChannel s)
    (callbacks s) (roomId s) (userId s) (isInitialized s) (makingOffer s) v
    (isPolite s) (socketId s) (audioTransceiver s) (videoTransceiver s).
Definition set_isPolite (v : bool) (s : Service) : Service :=
  mkService (socket s) (peerConnection s) (localStream s) (dataChannel s)
    (callbacks s) (roomId s) (userId s) (isInitialized s) (makingOffer s)
    (ignoreOffer s) v (socketId s) (audioTransceiver s) (videoTransceiver s).
Definition set_audioTransceiver (v : option TransceiverRef) (s : Service) : Service :=
  mkService (socket s) (peerConnection s) (localStream s) (dataChannel s)
    (callbacks s) (roomId s) (userId s) (isInitialized s) (makingOffer s)
    (ignoreOffer s) (isPolite s) (socketId s) v (videoTransceiver s).
Definition set_videoTransceiver (v : option TransceiverRef) (s : Service) : Service :=
  mkService (socket s) (peerConnection s) (localStream s) (dataChannel s)
    (callbacks s) (roomId s) (userId s) (isInitialized s) (makingOffer s)
    (ignoreOffer s) (isPolite s) (socketId s) (audioTransceiver s) v.

(* ===================================================================== *)
(** * Effects, the world and the monad *)
(* ===================================================================== *)

(** Everything a handler does to the outside, in order. *)
Inductive Effect : Type :=
| SocketOpen (server : string)
| SocketEmit (event : string) (payload : JsVal)
| SocketDisconnect
| NewRTCPeerConnection (pc : nat)
| AddTransceiver (pc : nat) (media : string)
| CreateDataChannel (pc : nat) (label : string)
| CreateOffer (pc : nat) (options : JsVal)
| CreateAnswer (pc : nat)
| SetLocalDescription (pc : nat) (desc : JsVal)
| SetRemoteDescription (pc : nat) (desc : JsVal)
| AddIceCandidate (pc : nat) (candidate : JsVal)
| AddTrack (pc : nat) (track : Track)
| ReplaceTrack (tr : TransceiverRef) (track : Track)
| ClosePeerConnection (pc : nat)
| GetUserMedia (constraints : JsVal)
| DataChannelSend (text : string)
| DataChannelClose
| TrackStop (track : Track)
| SwitchCamera (track : Track)
| OnLocalStream (stream : option MediaStream)
| OnRemoteStream (stream : JsVal)
| OnConnectionStateChange (state : string)
| OnChatMessage (msg : JsVal)
| OnRoomUpdate (clients : JsVal)
| OnCallEvents (event : string) (data : JsVal).

Record World : Type := mkWorld {
  this : Service;
  trace : list Effect;
  suspended : list Service;   (* the object at each await, oldest first *)
  next_pc : nat;              (* identity of the next connection object *)
  now : Z                     (* Date.now() *)
}.

Definition M (A : Type) : Type := World -> Result A * World.

Definition ret {A} (a : A) : M A := fun w => (Ok a, w).

Definition bind {A B} (m : M A) (k : A -> M B) : M B :=
  fun w =>
    match m w with
    | (Ok a, w') => k a w'
    | (Throw e, w') => (Throw e, w')
    end.

Definition throw {A} (e : JsError) : M A := fun w => (Throw e, w).

(** [try { m } catch (error) { h error }] *)
Definition try_catch {A} (m : M A) (h : JsError -> M A) : M A :=
  fun w =>
    match m w with
    | (Ok a, w') => (Ok a, w')
    | (Throw e, w') => h e w'
    end.

(** [try { m } finally { f }] *)
Definition try_finally {A} (m : M A) (f : M unit) : M A :=
  fun w =>
    match m w with
    | (r, w') =>
        match f w' with
        | (Ok _, w'') => (r, w'')
        | (Throw e, w'') => (Throw e, w'')
        end
    end.

Declare Scope js_scope.
Delimit Scope js_scope with js.
Notation "x <- m ;; k" := (bind m (fun x => k))
  (at level 61, m at next level, right associativity) : js_scope.
Notation "m ;; k" := (bind m (fun _ => k))
  (at level 61, right associativity) : js_scope.
Local Open Scope js_scope.

Definition get_this : M Service := fun w => (Ok (this w), w).

Definition modify (f : Service -> Service) : M unit :=
  fun w => (Ok tt, mkWorld (f (this w)) (trace w) (suspended w) (next_pc w) (now w)).

Definition perform (e : Effect) : M unit :=
  fun w => (Ok tt, mkWorld (this w) (trace w ++ [e]) (suspended w) (next_pc w) (now w)).

Definition Date_now : M Z := fun w => (Ok (now w), w).

Definition fresh_pc_id : M nat :=
  fun w => (Ok (next_pc w),
            mkWorld (this w) (trace w) (suspended w) (S (next_pc w)) (now w)).

Definition suspend : M unit :=
  fun w => (Ok tt, mkWorld (this w) (trace w) (suspended w ++ [this w])
                           (next_pc w) (now w)).

(** [await m]: the handler yields; other handlers may observe the object as
    it stands.  The yield happens whether the awaited promise fulfils or
    rejects. *)
Definition await {A} (m : M A) : M A :=
  fun w =>
    match m w with
    | (r, w') => (r, mkWorld (this w') (trace w') (suspended w' ++ [this w'])
                             (next_pc w') (now w'))
    end.

Definition lift {A} (r : Result A) : M A := fun w => (r, w).

(** [forEach] *)
Fixpoint forEach {A} (l : list A) (body : A -> M unit) : M unit :=
  match l with
  | [] => ret tt
  | x :: rest => body x ;; forEach rest body
  end.

Definition when (b : bool) (m : M unit) : M unit := if b then m else ret tt.

(** An envelope delivered by socket.io: the payload object, as its list of
    properties. *)
Definition Envelope : Type := list (string * JsVal).

(** Reading through a reference that is [null]. *)
Definition TypeError_null : JsError :=
  mkError "TypeError: Cannot read property of null".

(** [!data.sdp || !data.sdp.type || !data.sdp.sdp], negated. *)
Definition sdp_valid (data : Envelope) : bool :=
  truthy (assoc "sdp" data)
  && truthy (js_get (assoc "sdp" data) "type")
  && truthy (js_get (assoc "sdp" data) "sdp").

(** The test made by the [catch] clauses of the offer and answer handlers. *)
Definition is_sdp_error (error : JsError) : bool :=
  includes (message error) "error_content"
  || includes (message error) "InvalidStateError".

(** The constraint objects passed to [getUserMedia]. *)
Definition range (lo ideal hi : Z) : JsVal :=
  JObj [("min", JNum lo); ("ideal", JNum ideal); ("max", JNum hi)].

Definition constraints (video audio : bool) : JsVal :=
  JObj [("video",
         if video
         then JObj [("width", range 320 640 1280);
                    ("height", range 240 480 720);
                    ("frameRate", range 15 30 30);
                    ("facingMode", JStr "user")]
         else JBool false);
        ("audio",
         if audio
         then JObj [("echoCancellation", JBool true);
                    ("noiseSuppression", JBool true);
                    ("autoGainControl", JBool true)]
         else JBool false)].

Definition simpleConstraints (video audio : bool) : JsVal :=
  JObj [("video", JBool (if video then true else false));
        ("audio", JBool (if audio then true else false))].

Definition offerOptions : JsVal :=
  JObj [("offerToReceiveAudio", JBool true);
        ("offerToReceiveVideo", JBool true);
        ("voiceActivityDetection", JBool true)].

Definition is_some {A} (o : option A) : bool :=
  match o with Some _ => true | None => false end.

(* ===================================================================== *)
(** * The perfect-negotiation revision of the class *)
(* ===================================================================== *)

Section WebRTCService.

Variable E : Engine.

(** ** Access to the collaborators *)

(** [this.socket?.emit(event, payload)] *)
Definition socket_emit (event : string) (payload : JsVal) : M unit :=
  s <- get_this ;;
  match socket s with
  | Some _ => perform (SocketEmit event payload)
  | None => ret tt
  end.

(** A call [this.peerConnection.op(...)] that changes the connection. *)
Definition pc_do (eff : nat -> Effect) (op : PcState -> Result PcState) : M unit :=
  s <- get_this ;;
  match peerConnection s with
  | None => throw TypeError_null
  | Some pc =>
      perform (eff (pc_id pc)) ;;
      match op (pc_state pc) with
      | Ok st => modify (set_peerConnection (Some (mkPC (pc_id pc) st)))
      | Throw e => throw e
      end
  end.

(** A call [this.peerConnection.op(...)] that produces a value. *)
Definition pc_ask {A} (eff : nat -> Effect) (op : PcState -> Result A) : M A :=
  s <- get_this ;;
  match peerConnection s with
  | None => throw TypeError_null
  | Some pc => perform (eff (pc_id pc)) ;; lift (op (pc_state pc))
  end.

(** [(transceiver as any).sender.replaceTrack(track)]: the promise is not
    awaited.  The sender belongs to the connection that created it; the call
    reaches the current connection only when that is the owner. *)
Definition sender_replaceTrack (tr : TransceiverRef) (track : Track) : M unit :=
  perform (ReplaceTrack tr track) ;;
  s <- get_this ;;
  match peerConnection s with
  | Some pc =>
      if Nat.eqb (pc_id pc) (tr_owner tr)
      then modify (set_peerConnection
                     (Some (mkPC (pc_id pc)
                                 (replaceTrack E (pc_state pc) (tr_slot tr) track))))
      else ret tt
  | None => ret tt
  end.

(** [this.peerConnection?.addTrack(track, this.localStream!)] *)
Definition pc_addTrack (track : Track) : M unit :=
  s <- get_this ;;
  match peerConnection s with
  | None => ret tt
  | Some pc =>
      perform (AddTrack (pc_id pc) track) ;;
      match addTrack E (pc_state pc) track with
      | Ok st => modify (set_peerConnection (Some (mkPC (pc_id pc) st)))
      | Throw e => throw e
      end
  end.

(** [this.peerConnection.addTransceiver(kind, { direction: 'sendrecv' })] *)
Definition pc_addTransceiver (media : string) : M TransceiverRef :=
  s <- get_this ;;
  match peerConnection s with
  | None => throw TypeError_null
  | Some pc =>
      perform (AddTransceiver (pc_id pc) media) ;;
      match addTransceiver E (pc_state pc) media with
      | Ok (slot, st) =>
          modify (set_peerConnection (Some (mkPC (pc_id pc) st))) ;;
          ret (mkTransceiverRef (pc_id pc) slot)
      | Throw e => throw e
      end
  end.

(** ** initializeSocket *)

Definition initializeSocket (signalingServer : string) : M unit :=
  perform (SocketOpen signalingServer) ;;
  modify (set_socket (Some (mkSocket signalingServer false))) ;;
  match io_connect E signalingServer with
  | Connects =>
      (* the 'connect' listener *)
      modify (set_socket (Some (mkSocket signalingServer true))) ;;
      s <- get_this ;;
      socket_emit "join" (JStr (roomId s))
  | ConnectError error => throw error
  | NeverConnects => throw (mkError "Socket connection timeout")
  end.

(** The 'connect' listener, which also runs on every later reconnection. *)
Definition on_connect : M unit :=
  s <- get_this ;;
  socket_emit "join" (JStr (roomId s)).

(** ** initializePeerConnection *)

Definition initializePeerConnection : M unit :=
  id <- fresh_pc_id ;;
  perform (NewRTCPeerConnection id) ;;
  modify (set_peerConnection (Some (mkPC id fresh_pc_state))) ;;
  try_catch
    (a <- pc_addTransceiver "audio" ;;
     modify (set_audioTransceiver (Some a)) ;;
     v <- pc_addTransceiver "video" ;;
     modify (set_videoTransceiver (Some v)))
    (fun _ => ret tt) ;;
  pc_do (fun pc => CreateDataChannel pc "chat")
        (fun st => createDataChannel E st "chat") ;;
  modify (set_dataChannel (Some (mkDataChannel id "connecting"))).

(** ** The listeners installed on the connection *)

Definition onicecandidate (event : Envelope) : M unit :=
  if truthy (assoc "candidate" event)
  then s <- get_this ;;
       socket_emit "ice-candidate"
         (JObj [("roomId", JStr (roomId s));
                ("candidate", assoc "candidate" event);
                ("sender", JStr (userId s))])
  else ret tt.

Definition onnegotiationneeded : M unit :=
  try_finally
    (try_catch
       (s <- get_this ;;
        if is_some (peerConnection s)
        then
          modify (set_makingOffer true) ;;
          offer <- await (pc_ask (fun pc => CreateOffer pc JUndefined)
                                 (fun st => pc_createOffer E st JUndefined)) ;;
          await (pc_do (fun pc => SetLocalDescription pc offer)
                       (fun st => setLocalDescription E st offer)) ;;
          s' <- get_this ;;
          match peerConnection s' with
          | None => throw TypeError_null
          | Some pc =>
              socket_emit "offer"
                (JObj [("roomId", JStr (roomId s'));
                       ("sdp", localDescription (pc_state pc));
                       ("sender", JStr (userId s'))])
          end
        else ret tt)
       (fun _ => ret tt))
    (modify (set_makingOffer false)).

Definition js_first (v : JsVal) : JsVal :=
  match v with
  | JArr (x :: _) => x
  | _ => JUndefined
  end.

Definition ontrack (event : Envelope) : M unit :=
  if truthy (assoc "streams" event) && truthy (js_first (assoc "streams" event))
  then s <- get_this ;;
       when (is_some (callbacks s))
            (perform (OnRemoteStream (js_first (assoc "streams" event))))
  else ret tt.

Definition oniceconnectionstatechange : M unit :=
  s <- get_this ;;
  let state :=
    match peerConnection s with
    | Some pc =>
        if (iceConnectionState (pc_state pc) =? "")%string then "new"
        else iceConnectionState (pc_state pc)
    | None => "new"
    end in
  when (is_some (callbacks s)) (perform (OnConnectionStateChange state)).

(** [dataChannel.onmessage] and the [onmessage] of an incoming channel. *)
Definition datachannel_onmessage (data : string) : M unit :=
  msg <- lift (JSON_parse E data) ;;
  s <- get_this ;;
  when (is_some (callbacks s)) (perform (OnChatMessage msg)).

(** ** startLocalStream *)

(** The body of [getTracks().forEach] in [startLocalStream]:
    [kind === 'audio' && this.audioTransceiver], then
    [kind === 'video' && this.videoTransceiver], then the fallback. *)
Definition attach_track (track : Track) : M unit :=
  s <- get_this ;;
  match (if (kind track =? "audio")%string then audioTransceiver s else None) with
  | Some a => sender_replaceTrack a track
  | None =>
      match (if (kind track =? "video")%string then videoTransceiver s else None) with
      | Some v => sender_replaceTrack v track
      | None => pc_addTrack track
      end
  end.

Definition attach_local_tracks : M unit :=
  s <- get_this ;;
  match peerConnection s, localStream s with
  | Some _, Some stream => forEach stream attach_track
  | _, _ => ret tt
  end.

(** [this.callbacks?.onLocalStream(this.localStream)] *)
Definition notify_local_stream : M unit :=
  s <- get_this ;;
  when (is_some (callbacks s)) (perform (OnLocalStream (localStream s))).

Definition acquire (c : JsVal) : M unit :=
  stream <- await (perform (GetUserMedia c) ;; lift (getUserMedia E c)) ;;
  modify (set_localStream (Some stream)).

Definition startLocalStream (video audio : bool) : M unit :=
  try_catch
    (acquire (constraints video audio) ;;
     attach_local_tracks ;;
     notify_local_stream)
    (fun error =>
       if video || audio
       then try_catch
              (acquire (simpleConstraints video audio) ;;
               attach_local_tracks ;;
               notify_local_stream)
              (fun retryError => throw retryError)
       else throw error).

(** [if (!this.localStream) await this.startLocalStream(true, true)], the
    step that opens both [handleOffer] and [createOffer]. *)
Definition ensure_local_stream : M unit :=
  s <- get_this ;;
  if is_some (localStream s) then ret tt
  else await (startLocalStream true true).

(** ** recoverFromSDPError *)

Definition recoverFromSDPError : M unit :=
  try_catch
    (s <- get_this ;;
     match peerConnection s with
     | Some pc =>
         perform (ClosePeerConnection (pc_id pc)) ;;
         modify (set_peerConnection
                   (Some (mkPC (pc_id pc) (pc_close E (pc_state pc)))))
     | None => ret tt
     end ;;
     await initializePeerConnection ;;
     s' <- get_this ;;
     match localStream s' with
     | Some stream => forEach stream pc_addTrack
     | None => ret tt
     end)
    (fun _ => ret tt).

(** The [catch] clause shared by [handleOffer] and [handleAnswer]. *)
Definition recover_on_sdp_error (error : JsError) : M unit :=
  if is_sdp_error error then await recoverFromSDPError else ret tt.

(** ** handleOffer *)

(** The role decision of [handleOffer]. *)
Definition polite (userId : string) (sender : JsVal) : bool :=
  negb (userId =? "")%string && truthy sender
  && string_gt userId (js_String sender).

Definition offerCollision (s : Service) (pc : PeerConnection) : bool :=
  makingOffer s || negb (signalingState (pc_state pc) =? "stable")%string.

(** The rest of the [try] block of [handleOffer] once the offer is neither
    malformed nor ignored: local media, remote description, answer, local
    description, [answer] envelope. *)
Definition accept_offer (data : Envelope) : M unit :=
  ensure_local_stream ;;
  await (pc_do (fun pc => SetRemoteDescription pc (assoc "sdp" data))
               (fun st => setRemoteDescription E st (assoc "sdp" data))) ;;
  answer <- await (pc_ask CreateAnswer (pc_createAnswer E)) ;;
  await (pc_do (fun pc => SetLocalDescription pc answer)
               (fun st => setLocalDescription E st answer)) ;;
  s3 <- get_this ;;
  socket_emit "answer"
    (JObj [("roomId", JStr (roomId s3));
           ("sdp", answer);
           ("sender", JStr (userId s3))]).

Definition handleOffer (data : Envelope) : M unit :=
  try_catch
    (s <- get_this ;;
     match peerConnection s with
     | None => ret tt
     | Some pc =>
         if negb (sdp_valid data) then ret tt
         else
           modify (set_isPolite (polite (userId s) (assoc "sender" data))) ;;
           s1 <- get_this ;;
           modify (set_ignoreOffer (negb (isPolite s1) && offerCollision s1 pc)) ;;
           s2 <- get_this ;;
           if ignoreOffer s2 then ret tt
           else accept_offer data
     end)
    recover_on_sdp_error.

(** ** handleAnswer *)

Definition handleAnswer (data : Envelope) : M unit :=
  try_catch
    (s <- get_this ;;
     match peerConnection s with
     | None => ret tt
     | Some _ =>
         if negb (sdp_valid data) then ret tt
         else if ignoreOffer s then ret tt
         else await (pc_do (fun pc => SetRemoteDescription pc (assoc "sdp" data))
                           (fun st => setRemoteDescription E st (assoc "sdp" data)))
     end)
    recover_on_sdp_error.

(** ** handleIceCandidate *)

Definition handleIceCandidate (data : Envelope) : M unit :=
  try_catch
    (s <- get_this ;;
     match peerConnection s with
     | None => ret tt
     | Some _ =>
         if ignoreOffer s then ret tt
         else await (pc_do (fun pc => AddIceCandidate pc (assoc "candidate" data))
                           (fun st => addIceCandidate E st (assoc "candidate" data)))
     end)
    (fun _ => ret tt).

(** ** Room, chat and call events *)

(** [data.clients || []] *)
Definition clients_or_empty (data : Envelope) : JsVal :=
  if truthy (assoc "clients" data) then assoc "clients" data else JArr [].

Definition callback (e : Effect) : M unit :=
  s <- get_this ;;
  when (is_some (callbacks s)) (perform e).

Definition handleRoomUpdate (data : Envelope) : M unit :=
  callback (OnRoomUpdate (clients_or_empty data)).

Definition handleChatMessage (data : JsVal) : M unit :=
  callback (OnChatMessage data).

Definition handleJoined (data : Envelope) : M unit :=
  callback (OnRoomUpdate (clients_or_empty data)).

Definition handleIncomingCall (data : Envelope) : M unit :=
  callback (OnCallEvents "incoming-call"
              (JObj [("caller", assoc "caller" data);
                     ("callerSocketId", assoc "callerSocketId" data)])).

Definition handleCallAccepted (data : Envelope) : M unit :=
  callback (OnCallEvents "call-accepted"
              (JObj [("accepter", assoc "accepter" data)])).

Definition handleCallRejected (data : Envelope) : M unit :=
  callback (OnCallEvents "call-rejected"
              (JObj [("rejecter", assoc "rejecter" data)])).

Definition handleCallEnded (data : Envelope) : M unit :=
  callback (OnCallEvents "call-ended"
              (JObj [("ender", assoc "ender" data)])).

Definition handleUserDisconnected (data : Envelope) : M unit :=
  callback (OnCallEvents "user-left"
              (JObj [("userId", assoc "disconnectedSocket" data)])).

(** ** createOffer and startVideoCall *)

Definition createOffer : M unit :=
  try_catch
    (s <- get_this ;;
     match peerConnection s with
     | None => ret tt
     | Some _ =>
         ensure_local_stream ;;
         offer <- await (pc_ask (fun pc => CreateOffer pc offerOptions)
                                (fun st => pc_createOffer E st offerOptions)) ;;
         await (pc_do (fun pc => SetLocalDescription pc offer)
                      (fun st => setLocalDescription E st offer)) ;;
         s' <- get_this ;;
         socket_emit "offer"
           (JObj [("roomId", JStr (roomId s'));
                  ("sdp", offer);
                  ("sender", JStr (userId s'))])
     end)
    (fun error => throw error).

Definition startVideoCall : M unit :=
  try_catch
    (s <- get_this ;;
     if negb (is_some (peerConnection s)) || negb (is_some (localStream s))
     then ret tt
     else await createOffer)
    (fun _ => ret tt).

(** ** Media toggles *)

(** [getVideoTracks()[0]] or [getAudioTracks()[0]], as a position. *)
Fixpoint first_of_kind (k : string) (stream : MediaStream) : option Track :=
  match stream with
  | [] => None
  | t :: rest => if (kind t =? k)%string then Some t else first_of_kind k rest
  end.

Definition flip (t : Track) : Track :=
  mkTrack (track_id t) (kind t) (negb (enabled t)) (has_switchCamera t).

(** [track.enabled = !track.enabled] on the first track of kind [k]. *)
Fixpoint flip_first (k : string) (stream : MediaStream) : MediaStream :=
  match stream with
  | [] => []
  | t :: rest =>
      if (kind t =? k)%string then flip t :: rest
      else t :: flip_first k rest
  end.

Definition toggle (k : string) : M bool :=
  s <- get_this ;;
  match localStream s with
  | None => ret false
  | Some stream =>
      match first_of_kind k stream with
      | Some t =>
          modify (set_localStream (Some (flip_first k stream))) ;;
          ret (negb (enabled t))
      | None => ret false
      end
  end.

Definition toggleCamera : M bool := toggle "video".

Definition toggleMicrophone : M bool := toggle "audio".

Definition switchCamera : M unit :=
  s <- get_this ;;
  match localStream s with
  | None => ret tt
  | Some stream =>
      match first_of_kind "video" stream with
      | Some t => when (has_switchCamera t) (perform (SwitchCamera t))
      | None => ret tt
      end
  end.

(** ** sendChatMessage *)

(** The object literal typed [ChatMessage] in [sendChatMessage]. *)
Definition chatMessage (userId message : string) (time : Z) : JsVal :=
  JObj [("sender", JStr userId);
        ("message", JStr message);
        ("time", JNum time);
        ("senderId", JStr userId)].

Definition channel_open (s : Service) : bool :=
  match dataChannel s with
  | Some dc => (readyState dc =? "open")%string
  | None => false
  end.

Definition sendChatMessage (message : string) : M unit :=
  s <- get_this ;;
  if negb (channel_open s)
  then socket_emit "chat-message"
         (JObj [("roomId", JStr (roomId s));
                ("sender", JStr (userId s));
                ("message", JStr message)])
  else
    t <- Date_now ;;
    perform (DataChannelSend (JSON_stringify E (chatMessage (userId s) message t))).

(** ** Call control *)

Definition makeCall (targetSocketId : string) : M unit :=
  s <- get_this ;;
  socket_emit "call-user"
    (JObj [("roomId", JStr (roomId s));
           ("targetSocketId", JStr targetSocketId);
           ("sender", JStr (userId s))]).

Definition acceptCall (callerSocketId : string) : M unit :=
  s <- get_this ;;
  socket_emit "call-accepted"
    (JObj [("roomId", JStr (roomId s));
           ("targetSocketId", JStr callerSocketId);
           ("sender", JStr (userId s))]).

Definition rejectCall (callerSocketId : string) : M unit :=
  s <- get_this ;;
  socket_emit "call-rejected"
    (JObj [("roomId", JStr (roomId s));
           ("targetSocketId", JStr callerSocketId);
           ("sender", JStr (userId s))]).

Definition endCall : M unit :=
  s <- get_this ;;
  socket_emit "end-call"
    (JObj [("roomId", JStr (roomId s));
           ("sender", JStr (userId s))]).

(** ** disconnect *)

Definition disconnect : M unit :=
  s <- get_this ;;
  when (is_some (dataChannel s))
       (perform DataChannelClose ;; modify (set_dataChannel None)) ;;
  match peerConnection s with
  | Some pc =>
      perform (ClosePeerConnection (pc_id pc)) ;;
      modify (set_peerConnection None)
  | None => ret tt
  end ;;
  match localStream s with
  | Some stream =>
      forEach stream (fun track => perform (TrackStop track)) ;;
      modify (set_localStream None)
  | None => ret tt
  end ;;
  when (is_some (socket s))
       (perform SocketDisconnect ;; modify (set_socket None)) ;;
  modify (set_isInitialized false).

(** ** initialize *)

Definition initialize (signalingServer roomId userId : string) (callbacks : nat)
  : M unit :=
  s <- get_this ;;
  if isInitialized s then ret tt
  else
    modify (set_roomId roomId) ;;
    modify (set_userId userId) ;;
    modify (set_callbacks (Some callbacks)) ;;
    try_catch
      (await (initializeSocket signalingServer) ;;
       await initializePeerConnection ;;
       modify (set_isInitialized true))
      (fun error => throw error).

End WebRTCService.

(* ===================================================================== *)
(** * The revision in src/services/WebRTCService.ts *)
(* ===================================================================== *)

(** This revision declares the fields [socket] to [isInitialized] only; the
    object is kept in the same record and the other fields are never read or
    written here.  Its connection has no pre-created transceivers and no
    [onnegotiationneeded] listener, local tracks are attached with
    [addTrack], and offers and answers are guarded on the remote
    description.  [initializeSocket], the connection listeners, the chat,
    call-control and toggle methods and [disconnect] have the same text as in
    the other revision.  ([handleRoomUpdate] and [handleJoined], which here
    also start [startVideoCall], are not embedded.) *)
Module Legacy.
Section WebRTCService.

Variable E : Engine.

Definition initializePeerConnection : M unit :=
  id <- fresh_pc_id ;;
  perform (NewRTCPeerConnection id) ;;
  modify (set_peerConnection (Some (mkPC id fresh_pc_state))) ;;
  pc_do (fun pc => CreateDataChannel pc "chat")
        (fun st => createDataChannel E st "chat") ;;
  modify (set_dataChannel (Some (mkDataChannel id "connecting"))).

Definition attach_local_tracks : M unit :=
  s <- get_this ;;
  match peerConnection s, localStream s with
  | Some _, Some stream => forEach stream (pc_addTrack E)
  | _, _ => ret tt
  end.

Definition startLocalStream (video audio : bool) : M unit :=
  try_catch
    (acquire E (constraints video audio) ;;
     attach_local_tracks ;;
     notify_local_stream)
    (fun error =>
       if video || audio
       then try_catch
              (acquire E (simpleConstraints video audio) ;;
               attach_local_tracks ;;
               notify_local_stream)
              (fun retryError => throw retryError)
       else throw error).

Definition ensure_local_stream : M unit :=
  s <- get_this ;;
  if is_some (localStream s) then ret tt
  else await (startLocalStream true true).

Definition recoverFromSDPError : M unit :=
  try_catch
    (s <- get_this ;;
     match peerConnection s with
     | Some pc =>
         perform (ClosePeerConnection (pc_id pc)) ;;
         modify (set_peerConnection
                   (Some (mkPC (pc_id pc) (pc_close E (pc_state pc)))))
     | None => ret tt
     end ;;
     await initializePeerConnection ;;
     s' <- get_this ;;
     match localStream s' with
     | Some stream => forEach stream (pc_addTrack E)
     | None => ret tt
     end)
    (fun _ => ret tt).

Definition recover_on_sdp_error (error : JsError) : M unit :=
  if is_sdp_error error then await recoverFromSDPError else ret tt.

Definition accept_offer (data : Envelope) : M unit :=
  ensure_local_stream ;;
  await (pc_do (fun pc => SetRemoteDescription pc (assoc "sdp" data))
               (fun st => setRemoteDescription E st (assoc "sdp" data))) ;;
  answer <- await (pc_ask CreateAnswer (pc_createAnswer E)) ;;
  await (pc_do (fun pc => SetLocalDescription pc answer)
               (fun st => setLocalDescription E st answer)) ;;
  s3 <- get_this ;;
  socket_emit "answer"
    (JObj [("roomId", JStr (roomId s3));
           ("sdp", answer);
           ("sender", JStr (userId s3))]).

Definition handleOffer (data : Envelope) : M unit :=
  try_catch
    (s <- get_this ;;
     match peerConnection s with
     | None => ret tt
     | Some pc =>
         if negb (sdp_valid data) then ret tt
         else if truthy (remoteDescription (pc_state pc)) then ret tt
         else accept_offer data
     end)
    recover_on_sdp_error.

Definition handleAnswer (data : Envelope) : M unit :=
  try_catch
    (s <- get_this ;;
     match peerConnection s with
     | None => ret tt
     | Some pc =>
         if negb (sdp_valid data) then ret tt
         else if truthy (remoteDescription (pc_state pc)) then ret tt
         else await (pc_do (fun pc => SetRemoteDescription pc (assoc "sdp" data))
                           (fun st => setRemoteDescription E st (assoc "sdp" data)))
     end)
    recover_on_sdp_error.

Definition handleIceCandidate (data : Envelope) : M unit :=
  try_catch
    (s <- get_this ;;
     match peerConnection s with
     | None => ret tt
     | Some _ =>
         await (pc_do (fun pc => AddIceCandidate pc (assoc "candidate" data))
                      (fun st => addIceCandidate E st (assoc "candidate" data)))
     end)
    (fun _ => ret tt).

Definition createOffer : M unit :=
  try_catch
    (s <- get_this ;;
     match peerConnection s with
     | None => ret tt
     | Some _ =>
         ensure_local_stream ;;
         offer <- await (pc_ask (fun pc => CreateOffer pc offerOptions)
                                (fun st => pc_createOffer E st offerOptions)) ;;
         await (pc_do (fun pc => SetLocalDescription pc offer)
                      (fun st => setLocalDescription E st offer)) ;;
         s' <- get_this ;;
         socket_emit "offer"
           (JObj [("roomId", JStr (roomId s'));
                  ("sdp", offer);
                  ("sender", JStr (userId s'))])
     end)
    (fun error => throw error).

Definition startVideoCall : M unit :=
  try_catch
    (s <- get_this ;;
     if negb (is_some (peerConnection s)) || negb (is_some (localStream s))
     then ret tt
     else await createOffer)
    (fun _ => ret tt).

Definition initialize (signalingServer roomId userId : string) (callbacks : nat)
  : M unit :=
  s <- get_this ;;
  if isInitialized s then ret tt
  else
    modify (set_roomId roomId) ;;
    modify (set_userId userId) ;;
    modify (set_callbacks (Some callbacks)) ;;
    try_catch
      (await (initializeSocket E signalingServer) ;;
       await initializePeerConnection ;;
       modify (set_isInitialized true))
      (fun error => throw error).

End WebRTCService.
End Legacy.

(* ===================================================================== *)
(** * A model engine *)
(* ===================================================================== *)

(** An engine to run the handlers on concrete inputs.  It follows the
    signalling-state table of the WebRTC API: an offer is accepted in
    [stable], an answer in the matching [have-...-offer] state, anything
    else is rejected with an [InvalidStateError]; a description whose [sdp]
    does not start with the version line is rejected as unparsable.
    [addTrack] reuses a free sender of the same kind before it adds one. *)
Module ModelEngine.

Definition with_signaling (state : string) (st : PcState) : PcState :=
  mkPcState state (localDescription st) (remoteDescription st)
            (iceConnectionState st) (transceivers st) (closed st).

Definition with_local (d : JsVal) (st : PcState) : PcState :=
  mkPcState (signalingState st) d (remoteDescription st)
            (iceConnectionState st) (transceivers st) (closed st).

Definition with_remote (d : JsVal) (st : PcState) : PcState :=
  mkPcState (signalingState st) (localDescription st) d
            (iceConnectionState st) (transceivers st) (closed st).

Definition with_transceivers (l : list Transceiver) (st : PcState) : PcState :=
  mkPcState (signalingState st) (localDescription st) (remoteDescription st)
            (iceConnectionState st) l (closed st).

Definition type_is (d : JsVal) (t : string) : bool :=
  match js_get d "type" with
  | JStr s => (s =? t)%string
  | _ => false
  end.

Definition parses (d : JsVal) : bool :=
  match js_get d "sdp" with
  | JStr s => String.prefix "v=0" s
  | _ => false
  end.

Definition wrong_state (st : PcState) : JsError :=
  mkError ("InvalidStateError: Called in wrong state: " ++ signalingState st)%string.

Definition unparsable : JsError :=
  mkError "OperationError: Failed to parse SessionDescription".

Definition set_description (local : bool) (st : PcState) (d : JsVal)
  : Result PcState :=
  let store := if local then with_local d else with_remote d in
  let have_offer := if local then "have-local-offer" else "have-remote-offer" in
  let awaiting := if local then "have-remote-offer" else "have-local-offer" in
  if closed st then Throw (wrong_state st)
  else if negb (parses d) then Throw unparsable
  else if type_is d "offer" then
    if (signalingState st =? "stable")%string
       || (signalingState st =? have_offer)%string
    then Ok (with_signaling have_offer (store st))
    else Throw (wrong_state st)
  else if type_is d "answer" then
    if (signalingState st =? awaiting)%string
    then Ok (with_signaling "stable" (store st))
    else Throw (wrong_state st)
  else Throw (mkError "TypeError: unknown description type").

Definition offer_sdp : JsVal :=
  JObj [("type", JStr "offer"); ("sdp", JStr "v=0 local offer")].

Definition answer_sdp : JsVal :=
  JObj [("type", JStr "answer"); ("sdp", JStr "v=0 local answer")].

Definition create_offer (st : PcState) (_ : JsVal) : Result JsVal :=
  if closed st then Throw (wrong_state st) else Ok offer_sdp.

Definition create_answer (st : PcState) : Result JsVal :=
  if (signalingState st =? "have-remote-offer")%string
  then Ok answer_sdp else Throw (wrong_state st).

Definition carries (id : nat) (t : Transceiver) : bool :=
  match t_track t with
  | Some id' => Nat.eqb id id'
  | None => false
  end.

Fixpoint reuse_sender (k : string) (id : nat) (l : list Transceiver)
  : option (list Transceiver) :=
  match l with
  | [] => None
  | t :: rest =>
      if (t_kind t =? k)%string && negb (is_some (t_track t))
      then Some (mkTransceiver k (Some id) (t_from_addTrack t) :: rest)
      else option_map (cons t) (reuse_sender k id rest)
  end.

Definition add_track (st : PcState) (track : Track) : Result PcState :=
  if closed st then Throw (wrong_state st)
  else if existsb (carries (track_id track)) (transceivers st)
  then Throw (mkError "InvalidAccessError: Track already exists in a sender")
  else match reuse_sender (kind track) (track_id track) (transceivers st) with
       | Some l => Ok (with_transceivers l st)
       | None =>
           Ok (with_transceivers
                 (transceivers st
                    ++ [mkTransceiver (kind track) (Some (track_id track)) true])
                 st)
       end.

Fixpoint replace_at (slot : nat) (id : nat) (l : list Transceiver)
  : list Transceiver :=
  match l, slot with
  | [], _ => []
  | t :: rest, O => mkTransceiver (t_kind t) (Some id) (t_from_addTrack t) :: rest
  | t :: rest, S n => t :: replace_at n id rest
  end.

Definition replace_track (st : PcState) (slot : nat) (track : Track) : PcState :=
  with_transceivers (replace_at slot (track_id track) (transceivers st)) st.

Definition add_transceiver (st : PcState) (media : string)
  : Result (nat * PcState) :=
  if closed st then Throw (wrong_state st)
  else Ok (List.length (transceivers st),
           with_transceivers (transceivers st ++ [mkTransceiver media None false]) st).

Definition close (st : PcState) : PcState :=
  mkPcState "closed" (localDescription st) (remoteDescription st)
            "closed" (transceivers st) true.

Definition microphone : Track := mkTrack 0 "audio" true false.
Definition camera : Track := mkTrack 1 "video" true true.

Definition get_user_media (c : JsVal) : Result MediaStream :=
  match truthy (js_get c "audio"), truthy (js_get c "video") with
  | false, false =>
      Throw (mkError "TypeError: at least one of audio and video is required")
  | a, v => Ok ((if a then [microphone] else []) ++ (if v then [camera] else []))
  end.

(** Serialisation is kept symbolic: the text of a value is the printed form
    of its top-level keys. *)
Definition stringify (v : JsVal) : string :=
  match v with
  | JObj fields => ("{" ++ String.concat "," (keys fields) ++ "}")%string
  | other => js_String other
  end.

Definition engine : Engine :=
  {| io_connect := fun _ => Connects;
     getUserMedia := get_user_media;
     addTransceiver := add_transceiver;
     createDataChannel := fun st _ => if closed st then Throw (wrong_state st) else Ok st;
     pc_createOffer := create_offer;
     pc_createAnswer := create_answer;
     setLocalDescription := set_description true;
     setRemoteDescription := set_description false;
     addIceCandidate := fun st _ => Ok st;
     addTrack := add_track;
     replaceTrack := replace_track;
     pc_close := close;
     JSON_stringify := stringify;
     JSON_parse := fun _ => Throw (mkError "SyntaxError: JSON Parse error") |}.

End ModelEngine.

(** ** Concrete worlds *)

Definition new_world : World :=
  {| this := new_WebRTCService; trace := []; suspended := [];
     next_pc := 0; now := 1700000000000 |}.

Definition run {A} (m : M A) (w : World) : World := snd (m w).

(** The connection object of a world that has one. *)
Definition pc_of (w : World) : PeerConnection :=
  match peerConnection (this w) with
  | Some pc => pc
  | None => mkPC 0 fresh_pc_state
  end.

(** Effects added by [m] to the trace of [w] (the trace only grows). *)
Definition effects_of {A} (m : M A) (w : World) : list Effect :=
  skipn (List.length (trace w)) (trace (run m w)).

(** Snapshots added by [m]. *)
Definition suspensions_of {A} (m : M A) (w : World) : list Service :=
  skipn (List.length (suspended w)) (suspended (run m w)).

(** A service initialised in room "room" for the given user, with the model
    engine, and the same with camera and microphone started. *)
Definition initialized (user : string) : World :=
  run (initialize ModelEngine.engine "wss://signal" "room" user 0) new_world.

Definition in_call (user : string) : World :=
  run (startLocalStream ModelEngine.engine true true) (initialized user).

(* ===================================================================== *)
(** * The entry points of the service *)
(* ===================================================================== *)

(** Every way control enters the perfect-negotiation revision: the public
    methods, the socket listeners and the listeners installed on the
    connection and on the data channel. *)
Inductive Op : Type :=
| Initialize (signalingServer roomId userId : string) (callbacks : nat)
| StartLocalStream (video audio : bool)
| CreateOfferCall
| ToggleCamera
| ToggleMicrophone
| SwitchCameraCall
| SendChatMessage (message : string)
| MakeCall (targetSocketId : string)
| AcceptCall (callerSocketId : string)
| RejectCall (callerSocketId : string)
| EndCall
| Disconnect
| SocketConnect
| Offer (data : Envelope)
| Answer (data : Envelope)
| IceCandidate (data : Envelope)
| RoomUpdate (data : Envelope)
| ChatMessageIn (data : JsVal)
| Joined (data : Envelope)
| IncomingCall (data : Envelope)
| CallAccepted (data : Envelope)
| CallRejected (data : Envelope)
| CallEnded (data : Envelope)
| UserDisconnected (data : Envelope)
| PcIceCandidate (event : Envelope)
| PcNegotiationNeeded
| PcTrack (event : Envelope)
| PcIceConnectionStateChange
| ChannelMessage (data : string).

Definition exec (E : Engine) (op : Op) : M unit :=
  match op with
  | Initialize server room user cb => initialize E server room user cb
  | StartLocalStream video audio => startLocalStream E video audio
  | CreateOfferCall => createOffer E
  | ToggleCamera => _ <- toggleCamera ;; ret tt
  | ToggleMicrophone => _ <- toggleMicrophone ;; ret tt
  | SwitchCameraCall => switchCamera
  | SendChatMessage message => sendChatMessage E message
  | MakeCall target => makeCall target
  | AcceptCall caller => acceptCall caller
  | RejectCall caller => rejectCall caller
  | EndCall => endCall
  | Disconnect => disconnect
  | SocketConnect => on_connect
  | Offer data => handleOffer E data
  | Answer data => handleAnswer E data
  | IceCandidate data => handleIceCandidate E data
  | RoomUpdate data => handleRoomUpdate data
  | ChatMessageIn data => handleChatMessage data
  | Joined data => handleJoined data
  | IncomingCall data => handleIncomingCall data
  | CallAccepted data => handleCallAccepted data
  | CallRejected data => handleCallRejected data
  | CallEnded data => handleCallEnded data
  | UserDisconnected data => handleUserDisconnected data
  | PcIceCandidate event => onicecandidate event
  | PcNegotiationNeeded => onnegotiationneeded E
  | PcTrack event => ontrack event
  | PcIceConnectionStateChange => oniceconnectionstatechange
  | ChannelMessage data => datachannel_onmessage E data
  end.

(** An emitted envelope that carries [roomId] and [sender]; effects other
    than socket emissions are not envelopes. *)
Definition addressed (e : Effect) : bool :=
  match e with
  | SocketEmit _ payload => has_field "roomId" payload && has_field "sender" payload
  | _ => true
  end.

(** The same, with the [join] envelope set apart: its payload is the bare
    room identifier. *)
Definition addressed_or_join (e : Effect) : bool :=
  match e with
  | SocketEmit event payload =>
      if (event =? "join")%string
      then match payload with JStr _ => true | _ => false end
      else has_field "roomId" payload && has_field "sender" payload
  | _ => true
  end.

(** The effects of acquiring and attaching local media. *)
Definition local_media_effect (e : Effect) : bool :=
  match e with
  | GetUserMedia _ | ReplaceTrack _ _ | AddTrack _ _ | OnLocalStream _ => true
  | _ => false
  end.

Definition is_ReplaceTrack (e : Effect) : bool :=
  match e with ReplaceTrack _ _ => true | _ => false end.


(** The world with another object in [this]. *)
Definition with_this (s : Service) (w : World) : World :=
  mkWorld s (trace w) (suspended w) (next_pc w) (now w).

(* ===================================================================== *)
(** * Scenarios and vocabulary of the statements *)
(* ===================================================================== *)

(** The envelopes, worlds, engines and predicates that the theorems below
    are stated with. *)

Definition offer_without_type : Envelope :=
  [("roomId", JStr "room");
   ("sdp", JObj [("sdp", JStr "v=0 remote offer")]);
   ("sender", JStr "alice")].

(** Modelled from the spec: the declaration of the type [ChatMessage] (module
    [../types]) is not among the sources.  The spec gives a chat message four
    attributes, [sender], [senderId], [body] and [sentAtEpochMillis]; the
    object literal typed [ChatMessage] in [sendChatMessage] names them
    [sender], [senderId], [message] and [time]. *)
Definition ChatMessage_fields : list string :=
  ["sender"; "message"; "time"; "senderId"].

Definition has_ChatMessage_shape (v : JsVal) : bool :=
  forallb (fun k => has_field k v) ChatMessage_fields.

(** A payload handed to the signaling channel that has the shape of a
    [ChatMessage]. *)
Definition carries_ChatMessage (e : Effect) : bool :=
  match e with
  | SocketEmit _ payload => has_ChatMessage_shape payload
  | _ => true
  end.

(** What [sendChatMessage] hands to the signaling channel. *)
Definition chat_envelope (s : Service) (message : string) : JsVal :=
  JObj [("roomId", JStr (roomId s));
        ("sender", JStr (userId s));
        ("message", JStr message)].

(** The world once [handleOffer] has written [isPolite] and [ignoreOffer]. *)
Definition decided (data : Envelope) (pc : PeerConnection) (w : World) : World :=
  let p := polite (userId (this w)) (assoc "sender" data) in
  with_this (set_ignoreOffer (negb p && offerCollision (this w) pc)
                             (set_isPolite p (this w))) w.

(** An offer envelope as a peer named [sender] emits it. *)
Definition offer_from (sender : string) : Envelope :=
  [("roomId", JStr "room");
   ("sdp", JObj [("type", JStr "offer"); ("sdp", JStr "v=0 remote offer")]);
   ("sender", JStr sender)].


(** A service in a call whose own offer is outstanding. *)
Definition offering (user : string) : World :=
  run (onnegotiationneeded ModelEngine.engine) (in_call user).

Definition ok_or {A} (default : A) (r : Result A) : A :=
  match r with
  | Ok a => a
  | Throw _ => default
  end.



Definition answer_from (sender : string) : Envelope :=
  [("roomId", JStr "room");
   ("sdp", JObj [("type", JStr "answer"); ("sdp", JStr "v=0 remote answer")]);
   ("sender", JStr sender)].

Definition candidate_from (sender : string) : Envelope :=
  [("roomId", JStr "room");
   ("candidate", JObj [("candidate", JStr "candidate:1 1 udp 1 192.0.2.1 9 typ host");
                       ("sdpMid", JStr "0"); ("sdpMLineIndex", JNum 0)]);
   ("sender", JStr sender)].

(** The service of alice has an offer outstanding and has just dropped the
    offer of bob. *)
Definition after_glare : World :=
  run (handleOffer ModelEngine.engine (offer_from "bob")) (offering "alice").

(** The service of bob made an offer and has applied the answer of alice:
    the negotiation is stable and a remote description is set. *)
Definition answered : World :=
  run (handleAnswer ModelEngine.engine (answer_from "alice")) (offering "bob").


(** A handler that returns normally from every world. *)
Definition returns (m : M unit) : Prop := forall w, fst (m w) = Ok tt.

(** The model engine with one collaborator changed: a descriptor generator
    that fails, a signaling server that cannot be reached, one that refuses
    the connection, and a candidate parser that rejects every candidate. *)
Definition with_createOffer (f : PcState -> JsVal -> Result JsVal) (E : Engine) : Engine :=
  mkEngine (io_connect E) (getUserMedia E) (addTransceiver E) (createDataChannel E)
           f (pc_createAnswer E) (setLocalDescription E) (setRemoteDescription E)
           (addIceCandidate E) (addTrack E) (replaceTrack E) (pc_close E)
           (JSON_stringify E) (JSON_parse E).

Definition with_io_connect (f : string -> ConnectOutcome) (E : Engine) : Engine :=
  mkEngine f (getUserMedia E) (addTransceiver E) (createDataChannel E)
           (pc_createOffer E) (pc_createAnswer E) (setLocalDescription E)
           (setRemoteDescription E) (addIceCandidate E) (addTrack E)
           (replaceTrack E) (pc_close E) (JSON_stringify E) (JSON_parse E).

Definition with_addIceCandidate (f : PcState -> JsVal -> Result PcState) (E : Engine)
  : Engine :=
  mkEngine (io_connect E) (getUserMedia E) (addTransceiver E) (createDataChannel E)
           (pc_createOffer E) (pc_createAnswer E) (setLocalDescription E)
           (setRemoteDescription E) f (addTrack E)
           (replaceTrack E) (pc_close E) (JSON_stringify E) (JSON_parse E).

Definition out_of_memory : JsError := mkError "OperationError: out of memory".

Definition refusing_engine : Engine :=
  with_createOffer (fun _ _ => Throw out_of_memory) ModelEngine.engine.

Definition unreachable_engine : Engine :=
  with_io_connect (fun _ => NeverConnects) ModelEngine.engine.

Definition connection_refused : JsError := mkError "xhr poll error".

Definition refused_engine : Engine :=
  with_io_connect (fun _ => ConnectError connection_refused) ModelEngine.engine.

Definition bad_candidate : JsError := mkError "OperationError: bad candidate".

Definition deaf_engine : Engine :=
  with_addIceCandidate (fun _ _ => Throw bad_candidate) ModelEngine.engine.

Definition answer_without_sdp : Envelope :=
  [("roomId", JStr "room"); ("sender", JStr "alice")].

(** What [disconnect] releases, in the order it releases it. *)
Definition released (s : Service) : list Effect :=
  (if is_some (dataChannel s) then [DataChannelClose] else [])
  ++ match peerConnection s with
     | Some pc => [ClosePeerConnection (pc_id pc)]
     | None => []
     end
  ++ match localStream s with
     | Some stream => map TrackStop stream
     | None => []
     end
  ++ (if is_some (socket s) then [SocketDisconnect] else []).

Definition torn_down (s : Service) : Service :=
  set_isInitialized false
    (set_socket None
       (set_localStream None
          (set_peerConnection None
             (set_dataChannel None s)))).

(** The handlers run to completion one after the other. *)
Fixpoint run_all (E : Engine) (ops : list Op) (w : World) : World :=
  match ops with
  | [] => w
  | op :: rest => run_all E rest (run (exec E op) w)
  end.

Definition is_Offer (op : Op) : bool :=
  match op with Offer _ => true | _ => false end.

Definition connect_error (outcome : ConnectOutcome) : option JsError :=
  match outcome with
  | Connects => None
  | ConnectError e => Some e
  | NeverConnects => Some (mkError "Socket connection timeout")
  end.

(** The object with its connection set aside: what an operation that only
    works on the connection leaves unchanged. *)
Definition beside_connection (s : Service) : Service := set_peerConnection None s.

(** The transceiver a track of kind audio or video is routed to. *)
Definition slot_for (a v : TransceiverRef) (track : Track) : TransceiverRef :=
  if (kind track =? "audio")%string then a else v.

Definition audio_or_video (track : Track) : bool :=
  (kind track =? "audio")%string || (kind track =? "video")%string.

Definition recovery_effect (e : Effect) : bool :=
  match e with
  | ClosePeerConnection _ | NewRTCPeerConnection _ | AddTransceiver _ _
  | CreateDataChannel _ _ | AddTrack _ _ => true
  | _ => false
  end.

(** The fields recovery has no business with. *)
Definition session_fields (s : Service)
  : option Socket * option MediaStream * option nat * string * string
    * bool * bool * bool * bool :=
  (socket s, localStream s, callbacks s, roomId s, userId s,
   isInitialized s, makingOffer s, ignoreOffer s, isPolite s).




Definition garbled_answer_from (sender : string) : Envelope :=
  [("roomId", JStr "room");
   ("sdp", JObj [("type", JStr "answer"); ("sdp", JStr "garbled")]);
   ("sender", JStr sender)].

Definition is_GetUserMedia (e : Effect) : bool :=
  match e with GetUserMedia _ => true | _ => false end.

(** Attaching and notifying: local media effects other than a request. *)
Definition attach_effect (e : Effect) : bool :=
  local_media_effect e && negb (is_GetUserMedia e).

(** [VideoCallScreen] takes the room and the user from the navigation
    parameters, when they are there and not empty. *)
Module VideoCallScreen.

(** [route?.params?.roomId || 'test-room'] *)
Definition roomId (param : option string) : string :=
  match param with
  | Some s => if (s =? "")%string then "test-room" else s
  | None => "test-room"
  end.

(** [route?.params?.userId || `user-${Date.now()}`] *)
Definition userId (param : option string) (now : Z) : string :=
  match param with
  | Some s => if (s =? "")%string then ("user-" ++ string_of_Z now)%string else s
  | None => ("user-" ++ string_of_Z now)%string
  end.

End VideoCallScreen.

Definition is_AddTransceiver (e : Effect) : bool :=
  match e with AddTransceiver _ _ => true | _ => false end.

Definition no_transceiver_use (e : Effect) : bool :=
  negb (is_ReplaceTrack e) && negb (is_AddTransceiver e).

Definition transceiver_fields (s : Service)
  : option TransceiverRef * option TransceiverRef * bool * bool * bool :=
  (audioTransceiver s, videoTransceiver s, makingOffer s, ignoreOffer s, isPolite s).

(** The entry points embedded from [src/services/WebRTCService.ts]. *)
Inductive LegacyOp : Type :=
| LInitialize (signalingServer roomId userId : string) (callbacks : nat)
| LStartLocalStream (video audio : bool)
| LOffer (data : Envelope)
| LAnswer (data : Envelope)
| LIceCandidate (data : Envelope)
| LCreateOffer
| LStartVideoCall
| LRecover.

Definition Legacy_exec (E : Engine) (op : LegacyOp) : M unit :=
  match op with
  | LInitialize server room user cb => Legacy.initialize E server room user cb
  | LStartLocalStream video audio => Legacy.startLocalStream E video audio
  | LOffer data => Legacy.handleOffer E data
  | LAnswer data => Legacy.handleAnswer E data
  | LIceCandidate data => Legacy.handleIceCandidate E data
  | LCreateOffer => Legacy.createOffer E
  | LStartVideoCall => Legacy.startVideoCall E
  | LRecover => Legacy.recoverFromSDPError E
  end.

Definition is_SocketEmit (e : Effect) : bool :=
  match e with SocketEmit _ _ => true | _ => false end.

(** An [answer] envelope handed to the signaling channel. *)
Definition is_answer_emit (e : Effect) : bool :=
  match e with
  | SocketEmit event _ => (event =? "answer")%string
  | _ => false
  end.

(** The service of bob initialised and in a call through the revision in
    [src/services/WebRTCService.ts]. *)
Definition legacy_in_call (user : string) : World :=
  run (Legacy.startLocalStream ModelEngine.engine true true)
      (run (Legacy.initialize ModelEngine.engine "wss://signal" "room" user 0)
           new_world).

(* ===================================================================== *)
(** * Reasoning about handlers *)
(* ===================================================================== *)

Lemma skipn_app_length {A} (l d : list A) : skipn (List.length l) (l ++ d) = d.
Proof. induction l; simpl; auto. Qed.

(** ** Frames

    A frame is a relation between the world before and after a handler that
    is reflexive, transitive and kept by the primitive steps: by every
    effect that satisfies [okE] and every update of the object that
    satisfies [okF].  A handler built from such steps keeps the relation. *)
Record Frame : Type := mkFrame {
  rel : World -> World -> Prop;
  okE : Effect -> bool;
  okF : (Service -> Service) -> Prop;
  rel_refl : forall w, rel w w;
  rel_trans : forall a b c, rel a b -> rel b c -> rel a c;
  rel_perform : forall e w, okE e = true -> rel w (snd (perform e w));
  rel_modify : forall f w, okF f -> rel w (snd (modify f w));
  rel_fresh : forall w, rel w (snd (fresh_pc_id w));
  rel_suspend : forall w, rel w (snd (suspend w))
}.

Definition preserves (F : Frame) {A} (m : M A) : Prop :=
  forall w, rel F w (snd (m w)).

Section FrameRules.

Variable F : Frame.

Lemma preserves_ret {A} (a : A) : preserves F (ret a).
Proof. intro w. apply rel_refl. Qed.

Lemma preserves_throw {A} (e : JsError) : preserves F (@throw A e).
Proof. intro w. apply rel_refl. Qed.

Lemma preserves_lift {A} (r : Result A) : preserves F (lift r).
Proof. intro w. apply rel_refl. Qed.

Lemma preserves_get_this : preserves F get_this.
Proof. intro w. apply rel_refl. Qed.

Lemma preserves_Date_now : preserves F Date_now.
Proof. intro w. apply rel_refl. Qed.

Lemma preserves_fresh : preserves F fresh_pc_id.
Proof. intro w. apply rel_fresh. Qed.

Lemma preserves_perform (e : Effect) : okE F e = true -> preserves F (perform e).
Proof. intros H w. now apply rel_perform. Qed.

Lemma preserves_modify (f : Service -> Service) : okF F f -> preserves F (modify f).
Proof. intros H w. now apply rel_modify. Qed.

Lemma preserves_bind {A B} (m : M A) (k : A -> M B) :
  preserves F m -> (forall a, preserves F (k a)) -> preserves F (bind m k).
Proof.
  intros Hm Hk w. unfold bind.
  specialize (Hm w). destruct (m w) as [[a | e] w1]; simpl in *.
  - eapply rel_trans; [exact Hm | apply Hk].
  - exact Hm.
Qed.

Lemma preserves_try_catch {A} (m : M A) (h : JsError -> M A) :
  preserves F m -> (forall e, preserves F (h e)) -> preserves F (try_catch m h).
Proof.
  intros Hm Hh w. unfold try_catch.
  specialize (Hm w). destruct (m w) as [[a | e] w1]; simpl in *.
  - exact Hm.
  - eapply rel_trans; [exact Hm | apply Hh].
Qed.

Lemma preserves_try_finally {A} (m : M A) (f : M unit) :
  preserves F m -> preserves F f -> preserves F (try_finally m f).
Proof.
  intros Hm Hf w. unfold try_finally.
  specialize (Hm w). destruct (m w) as [r w1]; simpl in *.
  specialize (Hf w1). destruct (f w1) as [[u | e] w2]; simpl in *;
    eapply rel_trans; eauto.
Qed.

Lemma preserves_await {A} (m : M A) : preserves F m -> preserves F (await m).
Proof.
  intros Hm w. unfold await.
  specialize (Hm w). destruct (m w) as [r w1]; simpl in *.
  eapply rel_trans; [exact Hm | apply (rel_suspend F w1)].
Qed.

Lemma preserves_when (b : bool) (m : M unit) :
  preserves F m -> preserves F (when b m).
Proof. intros Hm. destruct b; simpl; [exact Hm | apply preserves_ret]. Qed.

Lemma preserves_forEach {A} (l : list A) (body : A -> M unit) :
  (forall x, preserves F (body x)) -> preserves F (forEach l body).
Proof.
  intros Hb. induction l as [| x rest IH]; simpl.
  - apply preserves_ret.
  - apply preserves_bind; [apply Hb | intros _; exact IH].
Qed.

End FrameRules.

(** Decompose a goal [preserves F m] along the structure of [m]; what is
    left are the side conditions on the effects and the updates. *)
Ltac head_of t :=
  lazymatch t with
  | ?f _ => head_of f
  | _ => t
  end.

Ltac frame_step :=
  lazymatch goal with
  | |- preserves _ (bind _ _) => apply preserves_bind; [| intros ?]
  | |- preserves _ (ret _) => apply preserves_ret
  | |- preserves _ (throw _) => apply preserves_throw
  | |- preserves _ (lift _) => apply preserves_lift
  | |- preserves _ get_this => apply preserves_get_this
  | |- preserves _ Date_now => apply preserves_Date_now
  | |- preserves _ fresh_pc_id => apply preserves_fresh
  | |- preserves _ (try_catch _ _) => apply preserves_try_catch; [| intros ?]
  | |- preserves _ (try_finally _ _) => apply preserves_try_finally
  | |- preserves _ (await _) => apply preserves_await
  | |- preserves _ (when _ _) => apply preserves_when
  | |- preserves _ (forEach _ _) => apply preserves_forEach; intros ?
  | |- preserves _ (modify _) => apply preserves_modify
  | |- preserves _ (perform _) => apply preserves_perform
  | |- preserves _ (match ?x with _ => _ end) => destruct x
  | |- preserves _ ?m => let h := head_of m in unfold h
  end.

Ltac frame := repeat frame_step.

(** ** The trace frame: a handler only appends effects that satisfy [ok] *)

Definition appends (ok : Effect -> bool) (w w' : World) : Prop :=
  exists d, trace w' = trace w ++ d /\ forallb ok d = true.

Lemma appends_refl ok w : appends ok w w.
Proof. exists []. split; [now rewrite app_nil_r | reflexivity]. Qed.

Lemma appends_trans ok a b c : appends ok a b -> appends ok b c -> appends ok a c.
Proof.
  intros [d1 [H1 F1]] [d2 [H2 F2]]. exists (d1 ++ d2). split.
  - now rewrite H2, H1, app_assoc.
  - rewrite forallb_app, F1, F2. reflexivity.
Qed.

Lemma appends_perform ok e w : ok e = true -> appends ok w (snd (perform e w)).
Proof. intros H. exists [e]. simpl. now rewrite H. Qed.

Definition trace_frame (ok : Effect -> bool) : Frame :=
  {| rel := appends ok;
     okE := ok;
     okF := fun _ => True;
     rel_refl := appends_refl ok;
     rel_trans := appends_trans ok;
     rel_perform := appends_perform ok;
     rel_modify := fun f w _ => appends_refl ok (snd (modify f w));
     rel_fresh := fun w => appends_refl ok (snd (fresh_pc_id w));
     rel_suspend := fun w => appends_refl ok (snd (suspend w)) |}.

Lemma appends_effects_of ok {A} (m : M A) (w : World) :
  appends ok w (snd (m w)) -> forallb ok (effects_of m w) = true.
Proof.
  intros [d [H F]]. unfold effects_of, run. rewrite H, skipn_app_length. exact F.
Qed.

(** ** The field frame: a handler leaves the projection [proj] of the object
    alone, at its end and at each of its suspension points *)

Section FieldFrame.

Context {X : Type}.
Variable proj : Service -> X.

Definition keeps (w w' : World) : Prop :=
  proj (this w') = proj (this w)
  /\ exists d, suspended w' = suspended w ++ d
               /\ Forall (fun s => proj s = proj (this w)) d.

Lemma keeps_refl w : keeps w w.
Proof. split; [reflexivity |]. exists []. split; [now rewrite app_nil_r | constructor]. Qed.

Lemma keeps_trans a b c : keeps a b -> keeps b c -> keeps a c.
Proof.
  intros [E1 [d1 [H1 F1]]] [E2 [d2 [H2 F2]]]. split; [congruence |].
  exists (d1 ++ d2). split.
  - now rewrite H2, H1, app_assoc.
  - apply Forall_app. split; [exact F1 |].
    eapply Forall_impl; [| exact F2]. simpl. intros s Hs. congruence.
Qed.

Lemma keeps_perform e w : true = true -> keeps w (snd (perform e w)).
Proof.
  intros _. split; [reflexivity |]. exists [].
  split; [simpl; now rewrite app_nil_r | constructor].
Qed.

Lemma keeps_modify f w : (forall s, proj (f s) = proj s) -> keeps w (snd (modify f w)).
Proof.
  intros H. split; [apply H |]. exists []. split; [simpl; now rewrite app_nil_r | constructor].
Qed.

Lemma keeps_fresh w : keeps w (snd (fresh_pc_id w)).
Proof.
  split; [reflexivity |]. exists [].
  split; [simpl; now rewrite app_nil_r | constructor].
Qed.

Lemma keeps_suspend w : keeps w (snd (suspend w)).
Proof.
  split; [reflexivity |]. exists [this w]. split; [reflexivity |].
  constructor; [reflexivity | constructor].
Qed.

Definition field_frame : Frame :=
  {| rel := keeps;
     okE := fun _ => true;
     okF := fun f => forall s, proj (f s) = proj s;
     rel_refl := keeps_refl;
     rel_trans := keeps_trans;
     rel_perform := keeps_perform;
     rel_modify := keeps_modify;
     rel_fresh := keeps_fresh;
     rel_suspend := keeps_suspend |}.

End FieldFrame.

(** Side conditions of the two frames. *)
Ltac side := simpl; try reflexivity; try exact I; try (intros; reflexivity).

Ltac framed := frame; side.

(* ===================================================================== *)
(** * Envelopes on the signaling channel *)
(* ===================================================================== *)

Lemma exec_appends_addressed (E : Engine) (op : Op) :
  preserves (trace_frame addressed_or_join) (exec E op).
Proof. destruct op; framed. Qed.

(** C8 as stated fails on the [join] envelope: what the service emits when the
    socket connects is the room identifier alone, with no [sender]. *)
Lemma join_envelope_not_addressed :
  ~ (forall (E : Engine) (op : Op) (w : World),
        forallb addressed (effects_of (exec E op) w) = true).
Proof.
  intro H.
  specialize (H ModelEngine.engine (Initialize "wss://signal" "room" "bob" 0) new_world).
  vm_compute in H. discriminate H.
Qed.

(** C8, amended: whatever entry point runs, on whatever engine and from
    whatever state, every envelope it emits on the socket other than [join]
    has a [roomId] and a [sender] field, and a [join] envelope is a bare
    string (the room identifier). *)
Theorem emitted_envelopes_addressed (E : Engine) (op : Op) (w : World) :
  forallb addressed_or_join (effects_of (exec E op) w) = true.
Proof. apply appends_effects_of. apply exec_appends_addressed. Qed.

(* ===================================================================== *)
(** * Malformed offers and repeated initialisation *)
(* ===================================================================== *)

Lemma invalid_offer_dropped (E : Engine) (data : Envelope) (w : World) :
  sdp_valid data = false -> handleOffer E data w = (Ok tt, w).
Proof.
  intros H. unfold handleOffer, try_catch, bind, get_this. simpl.
  destruct (peerConnection (this w)); [rewrite H |]; reflexivity.
Qed.

Lemma Legacy_invalid_offer_dropped (E : Engine) (data : Envelope) (w : World) :
  sdp_valid data = false -> Legacy.handleOffer E data w = (Ok tt, w).
Proof.
  intros H. unfold Legacy.handleOffer, try_catch, bind, get_this. simpl.
  destruct (peerConnection (this w)); [rewrite H |]; reflexivity.
Qed.

Lemma missing_field_invalid (data : Envelope) :
  js_get (assoc "sdp" data) "type" = JUndefined
  \/ js_get (assoc "sdp" data) "sdp" = JUndefined ->
  sdp_valid data = false.
Proof.
  unfold sdp_valid. intros [H | H]; rewrite H; simpl.
  - now rewrite andb_false_r.
  - now rewrite andb_false_r.
Qed.

(** C9: an offer envelope whose [sdp] payload lacks [type] or lacks [sdp] is
    dropped: the handler returns normally and the world is the one it
    started from, so no description is applied, nothing is emitted and no
    field of the service changes.  This holds in both revisions. *)
Theorem malformed_offer_dropped (E : Engine) (data : Envelope) (w : World) :
  js_get (assoc "sdp" data) "type" = JUndefined
  \/ js_get (assoc "sdp" data) "sdp" = JUndefined ->
  handleOffer E data w = (Ok tt, w)
  /\ Legacy.handleOffer E data w = (Ok tt, w).
Proof.
  intros H. apply missing_field_invalid in H. split.
  - now apply invalid_offer_dropped.
  - now apply Legacy_invalid_offer_dropped.
Qed.

Lemma malformed_offer_dropped_witness :
  handleOffer ModelEngine.engine offer_without_type (in_call "bob")
    = (Ok tt, in_call "bob")
  /\ Legacy.handleOffer ModelEngine.engine offer_without_type (in_call "bob")
    = (Ok tt, in_call "bob").
Proof.
  apply (malformed_offer_dropped ModelEngine.engine offer_without_type (in_call "bob")).
  left. reflexivity.
Defined.

(** A successful [initialize] leaves [isInitialized] set. *)
Lemma initialize_sets_flag (E : Engine) server room user cb (w w' : World) :
  initialize E server room user cb w = (Ok tt, w') ->
  isInitialized (this w') = true.
Proof.
  unfold initialize, bind at 1, get_this.
  destruct (isInitialized (this w)) eqn:Hi.
  - unfold ret. intros H. inversion H. subst. exact Hi.
  - unfold bind, try_catch, modify, throw. simpl.
    match goal with
    | |- context [await ?m ?w0] => destruct (await m w0) as [[[] | e] w1]
    end; [| discriminate].
    match goal with
    | |- context [await ?m ?w0] => destruct (await m w0) as [[[] | e] w2]
    end; [| discriminate].
    intros H. inversion H. reflexivity.
Qed.

(** C10: [initialize] on a service whose [isInitialized] is set returns
    normally and leaves the world as it was: [roomId], [userId], the
    callbacks, the socket, the connection and the negotiation flags are all
    untouched, and nothing is done to the outside.  Both revisions. *)
Theorem initialize_again_is_noop (E : Engine) (server room user : string)
    (cb : nat) (w : World) :
  isInitialized (this w) = true ->
  initialize E server room user cb w = (Ok tt, w)
  /\ Legacy.initialize E server room user cb w = (Ok tt, w).
Proof.
  intros H. unfold initialize, Legacy.initialize, bind, get_this.
  rewrite H. split; reflexivity.
Qed.

Lemma initialize_again_is_noop_witness :
  initialize ModelEngine.engine "wss://elsewhere" "lobby" "carol" 7 (initialized "bob")
    = (Ok tt, initialized "bob")
  /\ Legacy.initialize ModelEngine.engine "wss://elsewhere" "lobby" "carol" 7
       (initialized "bob")
    = (Ok tt, initialized "bob").
Proof.
  apply (initialize_again_is_noop ModelEngine.engine "wss://elsewhere" "lobby"
           "carol" 7 (initialized "bob")).
  vm_compute. reflexivity.
Defined.

(* ===================================================================== *)
(** * Chat delivery *)
(* ===================================================================== *)

(** C7 as stated fails on the fallback path: with the data channel not open
    the payload given to the socket is [{roomId, sender, message}], which has
    neither [time] nor [senderId]. *)
Lemma chat_fallback_not_ChatMessage :
  ~ (forall (E : Engine) (message : string) (w : World),
        forallb carries_ChatMessage (effects_of (sendChatMessage E message) w) = true).
Proof.
  intro H. specialize (H ModelEngine.engine "hello" (initialized "bob")).
  vm_compute in H. discriminate H.
Qed.

(** C7, amended: a call to [sendChatMessage] uses at most one path, chosen
    by the readiness of the data channel at the time of the call: if the
    channel exists and is open, the one effect is a send on the channel of
    the serialised [ChatMessage] [{sender, message, time, senderId}];
    otherwise, if there is a socket, the one effect is a [chat-message]
    envelope [{roomId, sender, message}]; otherwise nothing is sent.  The
    object itself is unchanged and the call returns normally. *)
Theorem chat_uses_one_path (E : Engine) (message : string) (w : World) :
  effects_of (sendChatMessage E message) w
    = (if channel_open (this w)
       then [DataChannelSend
               (JSON_stringify E (chatMessage (userId (this w)) message (now w)))]
       else if is_some (socket (this w))
            then [SocketEmit "chat-message" (chat_envelope (this w) message)]
            else [])
  /\ has_ChatMessage_shape (chatMessage (userId (this w)) message (now w)) = true
  /\ keys_of (chat_envelope (this w) message) = ["roomId"; "sender"; "message"]
  /\ this (run (sendChatMessage E message) w) = this w
  /\ fst (sendChatMessage E message w) = Ok tt.
Proof.
  unfold effects_of, run, sendChatMessage, bind, get_this, socket_emit, Date_now.
  simpl. destruct (channel_open (this w)); simpl.
  - rewrite skipn_app_length. repeat split.
  - unfold bind, get_this. destruct (socket (this w)); simpl.
    + rewrite skipn_app_length. repeat split.
    + replace (trace w) with (trace w ++ []) at 2 by apply app_nil_r.
      rewrite skipn_app_length. repeat split.
Qed.

(* ===================================================================== *)
(** * Sequencing and normal return *)
(* ===================================================================== *)

Lemma bind_ok {A B} (m : M A) (k : A -> M B) (w w' : World) (a : A) :
  m w = (Ok a, w') -> bind m k w = k a w'.
Proof. intros H. unfold bind. now rewrite H. Qed.

Lemma bind_throw {A B} (m : M A) (k : A -> M B) (w w' : World) (e : JsError) :
  m w = (Throw e, w') -> bind m k w = (Throw e, w').
Proof. intros H. unfold bind. now rewrite H. Qed.

Lemma await_eq {A} (m : M A) (w w' : World) (r : Result A) :
  m w = (r, w') ->
  await m w = (r, mkWorld (this w') (trace w') (suspended w' ++ [this w'])
                          (next_pc w') (now w')).
Proof. intros H. unfold await. now rewrite H. Qed.

Lemma returns_ret : returns (ret tt).
Proof. intro w. reflexivity. Qed.

Lemma returns_await (m : M unit) : returns m -> returns (await m).
Proof.
  intros H w. unfold await. specialize (H w). destruct (m w) as [r w']. exact H.
Qed.

Lemma returns_try_catch (m : M unit) (h : JsError -> M unit) :
  (forall e, returns (h e)) -> returns (try_catch m h).
Proof.
  intros H w. unfold try_catch. destruct (m w) as [[[] | e] w'].
  - reflexivity.
  - apply H.
Qed.

Lemma returns_try_finally (m : M unit) (f : M unit) :
  returns m -> returns f -> returns (try_finally m f).
Proof.
  intros Hm Hf w. unfold try_finally. specialize (Hm w).
  destruct (m w) as [r w']. specialize (Hf w').
  destruct (f w') as [[[] | e] w'']; simpl in *; [exact Hm | discriminate Hf].
Qed.

Lemma recoverFromSDPError_returns (E : Engine) : returns (recoverFromSDPError E).
Proof. apply returns_try_catch. intros _. apply returns_ret. Qed.

Lemma recover_on_sdp_error_returns (E : Engine) (e : JsError) :
  returns (recover_on_sdp_error E e).
Proof.
  unfold recover_on_sdp_error. destruct (is_sdp_error e).
  - apply returns_await, recoverFromSDPError_returns.
  - apply returns_ret.
Qed.

Lemma Legacy_recoverFromSDPError_returns (E : Engine) :
  returns (Legacy.recoverFromSDPError E).
Proof. apply returns_try_catch. intros _. apply returns_ret. Qed.

Lemma Legacy_recover_on_sdp_error_returns (E : Engine) (e : JsError) :
  returns (Legacy.recover_on_sdp_error E e).
Proof.
  unfold Legacy.recover_on_sdp_error. destruct (is_sdp_error e).
  - apply returns_await, Legacy_recoverFromSDPError_returns.
  - apply returns_ret.
Qed.

(* ===================================================================== *)
(** * Offers: role, collision and the ignore flag *)
(* ===================================================================== *)

Lemma handleOffer_eq (E : Engine) (data : Envelope) (w : World) (pc : PeerConnection) :
  peerConnection (this w) = Some pc ->
  sdp_valid data = true ->
  handleOffer E data w
    = if negb (polite (userId (this w)) (assoc "sender" data))
         && offerCollision (this w) pc
      then (Ok tt, decided data pc w)
      else try_catch (accept_offer E data) (recover_on_sdp_error E) (decided data pc w).
Proof.
  intros Hpc Hv. unfold handleOffer, try_catch at 1, bind, get_this, modify.
  simpl. rewrite Hpc, Hv. simpl. unfold decided, with_this, offerCollision. simpl.
  destruct (negb (polite (userId (this w)) (assoc "sender" data))
            && (makingOffer (this w)
                || negb (signalingState (pc_state pc) =? "stable")%string));
    reflexivity.
Qed.


(** Accepting an offer, and recovering from its failure, write none of the
    fields of the negotiation policy. *)
Section AcceptFrames.

Context {X : Type}.
Variable proj : Service -> X.
Hypothesis proj_peerConnection : forall v s, proj (set_peerConnection v s) = proj s.
Hypothesis proj_localStream : forall v s, proj (set_localStream v s) = proj s.
Hypothesis proj_dataChannel : forall v s, proj (set_dataChannel v s) = proj s.
Hypothesis proj_audioTransceiver : forall v s, proj (set_audioTransceiver v s) = proj s.
Hypothesis proj_videoTransceiver : forall v s, proj (set_videoTransceiver v s) = proj s.

Ltac media_side :=
  simpl; intros;
  first [ reflexivity | apply proj_peerConnection | apply proj_localStream
        | apply proj_dataChannel | apply proj_audioTransceiver
        | apply proj_videoTransceiver ].

Lemma startLocalStream_keeps (E : Engine) (video audio : bool) :
  preserves (field_frame proj) (startLocalStream E video audio).
Proof. frame; media_side. Qed.

Lemma ensure_local_stream_keeps (E : Engine) :
  preserves (field_frame proj) (ensure_local_stream E).
Proof. frame; media_side. Qed.

Lemma recoverFromSDPError_keeps (E : Engine) :
  preserves (field_frame proj) (recoverFromSDPError E).
Proof. frame; media_side. Qed.

Lemma accept_offer_keeps (E : Engine) (data : Envelope) :
  preserves (field_frame proj)
            (try_catch (accept_offer E data) (recover_on_sdp_error E)).
Proof. frame; media_side. Qed.

Lemma handleAnswer_keeps (E : Engine) (data : Envelope) :
  preserves (field_frame proj) (handleAnswer E data).
Proof. frame; media_side. Qed.

Lemma createOffer_keeps (E : Engine) :
  preserves (field_frame proj) (createOffer E).
Proof. frame; media_side. Qed.

End AcceptFrames.

Lemma handleOffer_isPolite (E : Engine) (data : Envelope) (w : World) (pc : PeerConnection) :
  peerConnection (this w) = Some pc ->
  sdp_valid data = true ->
  isPolite (this (run (handleOffer E data) w))
    = polite (userId (this w)) (assoc "sender" data).
Proof.
  intros Hpc Hv. unfold run. rewrite (handleOffer_eq E data w pc Hpc Hv).
  destruct (negb _ && _).
  - reflexivity.
  - destruct (accept_offer_keeps isPolite (fun _ _ => eq_refl) (fun _ _ => eq_refl)
                (fun _ _ => eq_refl) (fun _ _ => eq_refl) (fun _ _ => eq_refl)
                E data (decided data pc w)) as [H _].
    rewrite H. reflexivity.
Qed.

Lemma handleOffer_ignoreOffer (E : Engine) (data : Envelope) (w : World) (pc : PeerConnection) :
  peerConnection (this w) = Some pc ->
  sdp_valid data = true ->
  ignoreOffer (this (run (handleOffer E data) w))
    = negb (polite (userId (this w)) (assoc "sender" data))
      && offerCollision (this w) pc.
Proof.
  intros Hpc Hv. unfold run. rewrite (handleOffer_eq E data w pc Hpc Hv).
  destruct (negb _ && _) eqn:Hd.
  - simpl. exact Hd.
  - destruct (accept_offer_keeps ignoreOffer (fun _ _ => eq_refl) (fun _ _ => eq_refl)
                (fun _ _ => eq_refl) (fun _ _ => eq_refl) (fun _ _ => eq_refl)
                E data (decided data pc w)) as [H _].
    rewrite H. simpl. exact Hd.
Qed.

(** ** The order on identifiers *)

Lemma string_gt_asym (a b : string) : a <> b -> string_gt a b = negb (string_gt b a).
Proof.
  intros Hab. unfold string_gt, String.ltb.
  rewrite (String.compare_antisym b a).
  destruct (String.compare a b) eqn:Hc; simpl; try reflexivity.
  apply String.compare_eq_iff in Hc. contradiction.
Qed.

Lemma polite_nonempty (a b : string) :
  a <> "" -> b <> "" -> polite a (JStr b) = string_gt a b.
Proof.
  intros Ha Hb. unfold polite. simpl.
  apply String.eqb_neq in Ha. apply String.eqb_neq in Hb.
  rewrite Ha, Hb. reflexivity.
Qed.




(** ** Accepting an offer *)

Lemma ensure_local_stream_ready (E : Engine) (w : World) :
  is_some (localStream (this w)) = true -> ensure_local_stream E w = (Ok tt, w).
Proof.
  intros H. unfold ensure_local_stream, bind, get_this. now rewrite H.
Qed.

Lemma ensure_local_stream_effects (E : Engine) :
  preserves (trace_frame local_media_effect) (ensure_local_stream E).
Proof. framed. Qed.

(** With local media in place and an engine that accepts each step, the
    rest of the handler applies the offer, answers it and emits the answer. *)
Lemma accept_offer_succeeds (E : Engine) (data : Envelope) (w0 w1 : World)
    (pc1 : PeerConnection) (st1 st2 : PcState) (answer : JsVal) :
  ensure_local_stream E w0 = (Ok tt, w1) ->
  peerConnection (this w1) = Some pc1 ->
  is_some (socket (this w1)) = true ->
  setRemoteDescription E (pc_state pc1) (assoc "sdp" data) = Ok st1 ->
  pc_createAnswer E st1 = Ok answer ->
  setLocalDescription E st1 answer = Ok st2 ->
  try_catch (accept_offer E data) (recover_on_sdp_error E) w0
    = (Ok tt,
       mkWorld (set_peerConnection (Some (mkPC (pc_id pc1) st2)) (this w1))
               (trace w1 ++ [SetRemoteDescription (pc_id pc1) (assoc "sdp" data);
                             CreateAnswer (pc_id pc1);
                             SetLocalDescription (pc_id pc1) answer;
                             SocketEmit "answer"
                               (JObj [("roomId", JStr (roomId (this w1)));
                                      ("sdp", answer);
                                      ("sender", JStr (userId (this w1)))])])
               (suspended w1
                  ++ [set_peerConnection (Some (mkPC (pc_id pc1) st1)) (this w1);
                      set_peerConnection (Some (mkPC (pc_id pc1) st1)) (this w1);
                      set_peerConnection (Some (mkPC (pc_id pc1) st2)) (this w1)])
               (next_pc w1) (now w1)).
Proof.
  intros Hens Hpc Hsock Hrem Hans Hloc.
  unfold try_catch, accept_offer. unfold bind at 1. rewrite Hens.
  unfold bind, await, pc_do, pc_ask, socket_emit, bind, get_this, perform,
    modify, lift, throw, ret.
  simpl. rewrite Hpc. simpl. rewrite Hrem. simpl. rewrite Hans. simpl.
  rewrite Hloc. simpl.
  destruct (socket (this w1)); [| discriminate Hsock]. simpl.
  repeat rewrite <- app_assoc. reflexivity.
Qed.

Lemma no_emit_among (ok : Effect -> bool) (l : list Effect) :
  (forall e, ok e = true -> is_SocketEmit e = false) ->
  forallb ok l = true -> existsb is_SocketEmit l = false.
Proof.
  intros Hok. induction l as [| e rest IH]; simpl; intros H.
  - reflexivity.
  - apply andb_prop in H. destruct H as [He Hr].
    now rewrite (Hok e He), (IH Hr).
Qed.

Lemma local_media_no_emit (l : list Effect) :
  forallb local_media_effect l = true -> existsb is_SocketEmit l = false.
Proof. apply no_emit_among. intros []; simpl; congruence. Qed.

Lemma recovery_no_emit (l : list Effect) :
  forallb recovery_effect l = true -> existsb is_SocketEmit l = false.
Proof. apply no_emit_among. intros []; simpl; congruence. Qed.

Lemma recover_on_sdp_error_rebuilds (E : Engine) (error : JsError) :
  preserves (trace_frame recovery_effect) (recover_on_sdp_error E error).
Proof. framed. Qed.

(** The accepting sequence emits last: when it throws, at whatever step,
    nothing has been emitted. *)
Lemma accept_offer_throws_quietly (E : Engine) (data : Envelope) (w0 w' : World)
    (e : JsError) :
  accept_offer E data w0 = (Throw e, w') ->
  exists d, trace w' = trace w0 ++ d /\ existsb is_SocketEmit d = false.
Proof.
  unfold accept_offer. intros H.
  destruct (ensure_local_stream_effects E w0) as [m [Hm Fm]].
  apply local_media_no_emit in Fm.
  destruct (ensure_local_stream E w0) as [[[] | e0] w1] eqn:Hens; simpl in Hm.
  - rewrite (bind_ok _ _ _ _ _ Hens) in H. revert H.
    unfold bind, await, pc_do, pc_ask, socket_emit, bind, get_this, perform,
      modify, lift, throw, ret.
    simpl.
    destruct (peerConnection (this w1)) as [pc1 |]; simpl.
    + destruct (setRemoteDescription E (pc_state pc1) (assoc "sdp" data))
        as [st1 | e1]; simpl.
      * destruct (pc_createAnswer E st1) as [answer | e2]; simpl.
        -- destruct (setLocalDescription E st1 answer) as [st2 | e3]; simpl.
           ++ destruct (socket (this w1)); simpl; discriminate.
           ++ intros H. injection H as _ <-. simpl. rewrite Hm.
              eexists. rewrite <- !app_assoc. split; [reflexivity |].
              rewrite existsb_app, Fm. reflexivity.
        -- intros H. injection H as _ <-. simpl. rewrite Hm.
           eexists. rewrite <- !app_assoc. split; [reflexivity |].
           rewrite existsb_app, Fm. reflexivity.
      * intros H. injection H as _ <-. simpl. rewrite Hm.
        eexists. rewrite <- !app_assoc. split; [reflexivity |].
        rewrite existsb_app, Fm. reflexivity.
    + intros H. injection H as _ <-. simpl. rewrite Hm.
      exists m. split; [reflexivity | exact Fm].
  - rewrite (bind_throw _ _ _ _ _ Hens) in H. injection H as _ <-.
    exists m. split; [exact Hm | exact Fm].
Qed.

(** With local media in place, an offer the engine rejects leaves the
    accepting sequence at its first step. *)
Lemma accept_offer_rejected (E : Engine) (data : Envelope) (w0 : World)
    (pc : PeerConnection) (e : JsError) :
  is_some (localStream (this w0)) = true ->
  peerConnection (this w0) = Some pc ->
  setRemoteDescription E (pc_state pc) (assoc "sdp" data) = Throw e ->
  accept_offer E data w0
    = (Throw e,
       mkWorld (this w0)
               (trace w0 ++ [SetRemoteDescription (pc_id pc) (assoc "sdp" data)])
               (suspended w0 ++ [this w0]) (next_pc w0) (now w0)).
Proof.
  intros Hls Hpc Hrem. unfold accept_offer.
  rewrite (bind_ok _ _ _ _ _ (ensure_local_stream_ready E w0 Hls)).
  unfold bind, await, pc_do, bind, get_this, perform, modify, throw. simpl.
  rewrite Hpc. simpl. rewrite Hrem. reflexivity.
Qed.

(** C1 as stated fails when the engine rejects a step of the acceptance.
    The service of bob has its own offer outstanding when the offer of
    alice arrives.  Bob is polite, so the offer is not ignored; but the
    handler performs no rollback of its own, and an engine that does not
    roll back implicitly rejects a remote offer in [have-local-offer]: the
    handler goes to its [catch] clause, rebuilds the connection and emits no
    answer.  The same holds, without any collision, for an offer whose
    description the engine cannot parse ([garbled_offer_from]). *)
Lemma polite_collision_offer_not_answered :
  ~ (forall (E : Engine) (data : Envelope) (w : World) (pc : PeerConnection),
       peerConnection (this w) = Some pc ->
       sdp_valid data = true ->
       polite (userId (this w)) (assoc "sender" data) = true
       \/ offerCollision (this w) pc = false ->
       existsb is_answer_emit (effects_of (handleOffer E data) w) = true).
Proof.
  intro H.
  assert (Hpc : peerConnection (this (offering "bob")) = Some (pc_of (offering "bob")))
    by (vm_compute; reflexivity).
  assert (Hv : sdp_valid (offer_from "alice") = true) by (vm_compute; reflexivity).
  assert (Hp : polite (userId (this (offering "bob")))
                      (assoc "sender" (offer_from "alice")) = true
               \/ offerCollision (this (offering "bob")) (pc_of (offering "bob")) = false)
    by (left; vm_compute; reflexivity).
  specialize (H ModelEngine.engine (offer_from "alice") (offering "bob")
                (pc_of (offering "bob")) Hpc Hv Hp).
  vm_compute in H. discriminate H.
Qed.

(** C1, amended: an offer with valid [sdp] reaches a service that has a
    connection.  The handler computes the role and the collision
    [makingOffer || signalingState !== 'stable'] from the state at arrival.
    Impolite and in collision: the handler returns at once; the world differs
    from the one at arrival in [isPolite] and in [ignoreOffer], now true, and
    in nothing else, so no description is touched and nothing is created or
    emitted.  In every other case the handler returns normally with
    [ignoreOffer] false and the role recorded, and it attempts the
    acceptance.  If local media is in place or can be acquired, a connection
    and the socket are there afterwards and the engine accepts each of the
    three steps, it sets the offer as remote description, creates an answer,
    sets it as local description and emits the [answer] envelope, in that
    order and after nothing but the effects of acquiring local media.  If
    the acceptance fails at any step, nothing is emitted on the socket; in
    particular, with local media in place and an engine that rejects the
    offer, all the handler does is the rejected [setRemoteDescription]
    followed by the effects of recovery. *)
Theorem offer_collision_policy (E : Engine) (data : Envelope) (w : World)
    (pc : PeerConnection) :
  peerConnection (this w) = Some pc ->
  sdp_valid data = true ->
  let is_polite := polite (userId (this w)) (assoc "sender" data) in
  let collision :=
    makingOffer (this w) || negb (signalingState (pc_state pc) =? "stable")%string in
  let w0 := with_this (set_ignoreOffer false (set_isPolite is_polite (this w))) w in
  (is_polite = false /\ collision = true ->
     handleOffer E data w
       = (Ok tt, with_this (set_ignoreOffer true (set_isPolite false (this w))) w))
  /\
  (is_polite = true \/ collision = false ->
     fst (handleOffer E data w) = Ok tt
     /\ ignoreOffer (this (run (handleOffer E data) w)) = false
     /\ isPolite (this (run (handleOffer E data) w)) = is_polite
     /\ (forall (w1 : World) (pc1 : PeerConnection) (st1 st2 : PcState)
                (answer : JsVal),
           ensure_local_stream E w0 = (Ok tt, w1) ->
           peerConnection (this w1) = Some pc1 ->
           is_some (socket (this w1)) = true ->
           setRemoteDescription E (pc_state pc1) (assoc "sdp" data) = Ok st1 ->
           pc_createAnswer E st1 = Ok answer ->
           setLocalDescription E st1 answer = Ok st2 ->
           this (run (handleOffer E data) w)
             = set_peerConnection (Some (mkPC (pc_id pc1) st2)) (this w1)
           /\ exists media : list Effect,
                forallb local_media_effect media = true
                /\ trace (run (handleOffer E data) w)
                   = trace w ++ media
                     ++ [SetRemoteDescription (pc_id pc1) (assoc "sdp" data);
                         CreateAnswer (pc_id pc1);
                         SetLocalDescription (pc_id pc1) answer;
                         SocketEmit "answer"
                           (JObj [("roomId", JStr (roomId (this w)));
                                  ("sdp", answer);
                                  ("sender", JStr (userId (this w)))])])
     /\ (forall error : JsError,
           fst (accept_offer E data w0) = Throw error ->
           existsb is_SocketEmit (effects_of (handleOffer E data) w) = false)
     /\ (forall error : JsError,
           is_some (localStream (this w)) = true ->
           setRemoteDescription E (pc_state pc) (assoc "sdp" data) = Throw error ->
           exists recovery : list Effect,
             forallb recovery_effect recovery = true
             /\ effects_of (handleOffer E data) w
                = SetRemoteDescription (pc_id pc) (assoc "sdp" data) :: recovery)).
Proof.
  intros Hpc Hv is_polite collision w0. split.
  - intros [Hp Hc]. rewrite (handleOffer_eq E data w pc Hpc Hv).
    unfold decided, offerCollision. fold is_polite. fold collision.
    rewrite Hp, Hc. reflexivity.
  - intros Hcase.
    assert (Hd : negb is_polite && collision = false)
      by (destruct Hcase as [H | H]; rewrite H; [reflexivity | apply andb_false_r]).
    assert (Heq : handleOffer E data w
                  = try_catch (accept_offer E data) (recover_on_sdp_error E) w0).
    { rewrite (handleOffer_eq E data w pc Hpc Hv).
      unfold decided, offerCollision. fold is_polite. fold collision.
      rewrite Hd. reflexivity. }
    split; [| split; [| split; [| split; [| split]]]].
    + apply returns_try_catch, recover_on_sdp_error_returns.
    + rewrite (handleOffer_ignoreOffer E data w pc Hpc Hv).
      unfold offerCollision. fold is_polite. fold collision. exact Hd.
    + apply (handleOffer_isPolite E data w pc Hpc Hv).
    + intros w1 pc1 st1 st2 answer Hens Hpc1 Hsock Hrem Hans Hloc.
      unfold run. rewrite Heq.
      rewrite (accept_offer_succeeds E data w0 w1 pc1 st1 st2 answer
                 Hens Hpc1 Hsock Hrem Hans Hloc).
      simpl.
      assert (Hroom : preserves (field_frame roomId) (ensure_local_stream E))
        by (frame; simpl; intros; reflexivity).
      assert (Huser : preserves (field_frame userId) (ensure_local_stream E))
        by (frame; simpl; intros; reflexivity).
      specialize (Hroom w0). specialize (Huser w0).
      destruct Hroom as [Hroom _], Huser as [Huser _].
      destruct (ensure_local_stream_effects E w0) as [media [Htr Hmedia]].
      rewrite Hens in Hroom, Huser, Htr. simpl in Hroom, Huser, Htr.
      split; [reflexivity |].
      exists media. split; [exact Hmedia |].
      rewrite Htr, Hroom, Huser. now rewrite <- app_assoc.
    + intros error Hacc. unfold effects_of, run. rewrite Heq. unfold try_catch.
      destruct (accept_offer E data w0) as [[[] | e] w'] eqn:Ha;
        simpl in Hacc; [discriminate Hacc |].
      destruct (accept_offer_throws_quietly E data w0 w' e Ha) as [d [Hd' Fd]].
      destruct (recover_on_sdp_error_rebuilds E e w') as [r [Hr Fr]].
      rewrite Hr, Hd'. simpl. rewrite <- app_assoc, skipn_app_length.
      rewrite existsb_app, Fd. simpl. now apply recovery_no_emit.
    + intros error Hls Hrem. unfold effects_of, run. rewrite Heq. unfold try_catch.
      rewrite (accept_offer_rejected E data w0 pc error Hls Hpc Hrem).
      match goal with
      | |- context [recover_on_sdp_error E error ?w'] =>
          destruct (recover_on_sdp_error_rebuilds E error w') as [r [Hr Fr]]
      end.
      exists r. split; [exact Fr |].
      rewrite Hr. simpl. rewrite <- app_assoc, skipn_app_length. reflexivity.
Qed.

Lemma offer_collision_policy_witness :
  handleOffer ModelEngine.engine (offer_from "bob") (offering "alice")
    = (Ok tt,
       with_this (set_ignoreOffer true (set_isPolite false (this (offering "alice"))))
                 (offering "alice"))
  /\ (fst (handleOffer ModelEngine.engine (offer_from "alice") (in_call "bob")) = Ok tt
      /\ ignoreOffer (this (run (handleOffer ModelEngine.engine (offer_from "alice"))
                                (in_call "bob"))) = false
      /\ existsb is_answer_emit
           (effects_of (handleOffer ModelEngine.engine (offer_from "alice"))
                       (in_call "bob")) = true)
  /\ (fst (handleOffer ModelEngine.engine (offer_from "alice") (offering "bob")) = Ok tt
      /\ ignoreOffer (this (run (handleOffer ModelEngine.engine (offer_from "alice"))
                                (offering "bob"))) = false
      /\ existsb is_SocketEmit
           (effects_of (handleOffer ModelEngine.engine (offer_from "alice"))
                       (offering "bob")) = false).
Proof.
  split; [| split].
  - refine (proj1 (offer_collision_policy ModelEngine.engine (offer_from "bob")
                     (offering "alice") (pc_of (offering "alice")) _ _) _).
    + vm_compute. reflexivity.
    + vm_compute. reflexivity.
    + split; vm_compute; reflexivity.
  - pose (w := in_call "bob").
    pose (w0 := with_this (set_ignoreOffer false
                             (set_isPolite (polite (userId (this w))
                                                   (assoc "sender" (offer_from "alice")))
                                           (this w))) w).
    pose (w1 := run (ensure_local_stream ModelEngine.engine) w0).
    pose (st1 := ok_or fresh_pc_state
                   (setRemoteDescription ModelEngine.engine (pc_state (pc_of w1))
                      (assoc "sdp" (offer_from "alice")))).
    pose (answer := ok_or JNull (pc_createAnswer ModelEngine.engine st1)).
    pose (st2 := ok_or fresh_pc_state
                   (setLocalDescription ModelEngine.engine st1 answer)).
    assert (Hpc : peerConnection (this w) = Some (pc_of w))
      by (vm_compute; reflexivity).
    assert (Hv : sdp_valid (offer_from "alice") = true) by (vm_compute; reflexivity).
    assert (Hp : polite (userId (this w)) (assoc "sender" (offer_from "alice")) = true)
      by (vm_compute; reflexivity).
    destruct (proj2 (offer_collision_policy ModelEngine.engine (offer_from "alice")
                       w (pc_of w) Hpc Hv) (or_introl Hp))
      as (Hret & Hig & _ & Hacc & _).
    split; [exact Hret | split; [exact Hig |]].
    destruct (Hacc w1 (pc_of w1) st1 st2 answer) as [_ [media [_ Htr]]];
      [vm_compute; reflexivity | vm_compute; reflexivity | vm_compute; reflexivity
       | vm_compute; reflexivity | vm_compute; reflexivity | vm_compute; reflexivity |].
    unfold effects_of. fold w. rewrite Htr, skipn_app_length, existsb_app.
    apply orb_true_iff. right. vm_compute. reflexivity.
  - pose (w := offering "bob").
    assert (Hpc : peerConnection (this w) = Some (pc_of w))
      by (vm_compute; reflexivity).
    assert (Hv : sdp_valid (offer_from "alice") = true) by (vm_compute; reflexivity).
    assert (Hp : polite (userId (this w)) (assoc "sender" (offer_from "alice")) = true)
      by (vm_compute; reflexivity).
    destruct (proj2 (offer_collision_policy ModelEngine.engine (offer_from "alice")
                       w (pc_of w) Hpc Hv) (or_introl Hp))
      as (Hret & Hig & _ & _ & Hquiet & _).
    split; [exact Hret | split; [exact Hig |]].
    apply (Hquiet (ModelEngine.wrong_state (pc_state (pc_of w)))).
    vm_compute. reflexivity.
Defined.

(* ===================================================================== *)
(** * The ignore flag *)
(* ===================================================================== *)

(** No entry point other than the offer handler writes [ignoreOffer]. *)
Lemma exec_keeps_ignoreOffer (E : Engine) (op : Op) :
  (forall data, op <> Offer data) ->
  preserves (field_frame ignoreOffer) (exec E op).
Proof.
  intros H. destruct op; try (frame; simpl; intros; reflexivity).
  exfalso. eapply H. reflexivity.
Qed.

Lemma ignored_answer_dropped (E : Engine) (data : Envelope) (w : World) :
  ignoreOffer (this w) = true -> handleAnswer E data w = (Ok tt, w).
Proof.
  intros H. unfold handleAnswer, try_catch, bind, get_this. simpl.
  destruct (peerConnection (this w)); [| reflexivity].
  destruct (negb (sdp_valid data)); [reflexivity |]. now rewrite H.
Qed.





(* ===================================================================== *)
(** * Duplicate offers and answers *)
(* ===================================================================== *)

Lemma Legacy_duplicate_offer_dropped (E : Engine) (data : Envelope) (w : World)
    (pc : PeerConnection) :
  peerConnection (this w) = Some pc ->
  truthy (remoteDescription (pc_state pc)) = true ->
  Legacy.handleOffer E data w = (Ok tt, w).
Proof.
  intros Hpc Hr. unfold Legacy.handleOffer, try_catch, bind, get_this. simpl.
  rewrite Hpc. destruct (negb (sdp_valid data)); [reflexivity |]. now rewrite Hr.
Qed.

Lemma Legacy_duplicate_answer_dropped (E : Engine) (data : Envelope) (w : World)
    (pc : PeerConnection) :
  peerConnection (this w) = Some pc ->
  truthy (remoteDescription (pc_state pc)) = true ->
  Legacy.handleAnswer E data w = (Ok tt, w).
Proof.
  intros Hpc Hr. unfold Legacy.handleAnswer, try_catch, bind, get_this. simpl.
  rewrite Hpc. destruct (negb (sdp_valid data)); [reflexivity |]. now rewrite Hr.
Qed.

Lemma recover_on_sdp_error_appends (E : Engine) (error : JsError) :
  preserves (trace_frame (fun _ => true)) (recover_on_sdp_error E error).
Proof. framed. Qed.

(** In the perfect-negotiation revision an answer that is valid and not
    ignored goes to the engine, whatever the connection already holds. *)
Lemma answer_reaches_engine (E : Engine) (data : Envelope) (w : World)
    (pc : PeerConnection) :
  peerConnection (this w) = Some pc ->
  sdp_valid data = true ->
  ignoreOffer (this w) = false ->
  exists rest,
    effects_of (handleAnswer E data) w
      = SetRemoteDescription (pc_id pc) (assoc "sdp" data) :: rest.
Proof.
  intros Hpc Hv Hi.
  unfold effects_of, run, handleAnswer, try_catch, bind, get_this. simpl.
  rewrite Hpc, Hv, Hi. simpl.
  unfold await, pc_do, bind, get_this, perform, modify, throw. simpl.
  rewrite Hpc. simpl.
  destruct (setRemoteDescription E (pc_state pc) (assoc "sdp" data)) as [st | e]; simpl.
  - exists []. now rewrite skipn_app_length.
  - match goal with
    | |- context [recover_on_sdp_error E e ?w0] =>
        destruct (recover_on_sdp_error_appends E e w0) as [d [Hd _]]
    end.
    simpl in Hd. rewrite Hd. exists d.
    now rewrite <- app_assoc, skipn_app_length.
Qed.

(** C4 as stated fails for the answer handler it cites, that of the
    perfect-negotiation revision: a second answer for a stable negotiation
    with a remote description set is not a no-op there. *)
Lemma duplicate_answer_not_dropped :
  ~ (forall (E : Engine) (data : Envelope) (w : World) (pc : PeerConnection),
        peerConnection (this w) = Some pc ->
        truthy (remoteDescription (pc_state pc)) = true ->
        signalingState (pc_state pc) = "stable" ->
        handleAnswer E data w = (Ok tt, w)).
Proof.
  intro H.
  specialize (H ModelEngine.engine (answer_from "alice") answered (pc_of answered)).
  assert (H1 : peerConnection (this answered) = Some (pc_of answered))
    by (vm_compute; reflexivity).
  assert (H2 : truthy (remoteDescription (pc_state (pc_of answered))) = true)
    by (vm_compute; reflexivity).
  assert (H3 : signalingState (pc_state (pc_of answered)) = "stable")
    by (vm_compute; reflexivity).
  specialize (H H1 H2 H3).
  apply (f_equal (fun r => List.length (trace (snd r)))) in H.
  vm_compute in H. discriminate H.
Qed.

(** C4, amended: in [src/services/WebRTCService.ts], once the connection
    holds a remote description, an inbound offer and an inbound answer are
    each dropped without error, nothing is applied and the world is
    unchanged.  The perfect-negotiation revision has no such guard: there an
    inbound answer is dropped (world unchanged) while [ignoreOffer] is set,
    and a valid answer that is not ignored is handed to the engine's
    [setRemoteDescription] as the handler's first effect, whatever remote
    description the connection holds. *)
Theorem duplicate_descriptions (E : Engine) (data : Envelope) (w : World)
    (pc : PeerConnection) :
  peerConnection (this w) = Some pc ->
  (truthy (remoteDescription (pc_state pc)) = true ->
     Legacy.handleOffer E data w = (Ok tt, w)
     /\ Legacy.handleAnswer E data w = (Ok tt, w))
  /\ (ignoreOffer (this w) = true -> handleAnswer E data w = (Ok tt, w))
  /\ (sdp_valid data = true -> ignoreOffer (this w) = false ->
        exists rest,
          effects_of (handleAnswer E data) w
            = SetRemoteDescription (pc_id pc) (assoc "sdp" data) :: rest).
Proof.
  intros Hpc. split; [| split].
  - intros Hr. split.
    + now apply (Legacy_duplicate_offer_dropped E data w pc).
    + now apply (Legacy_duplicate_answer_dropped E data w pc).
  - now apply ignored_answer_dropped.
  - intros Hv Hi. now apply answer_reaches_engine.
Qed.

Lemma duplicate_descriptions_witness :
  (Legacy.handleOffer ModelEngine.engine (offer_from "alice") answered = (Ok tt, answered)
   /\ Legacy.handleAnswer ModelEngine.engine (answer_from "alice") answered
      = (Ok tt, answered))
  /\ exists rest,
       effects_of (handleAnswer ModelEngine.engine (answer_from "alice")) answered
         = SetRemoteDescription (pc_id (pc_of answered))
             (assoc "sdp" (answer_from "alice")) :: rest.
Proof.
  assert (Hpc : peerConnection (this answered) = Some (pc_of answered))
    by (vm_compute; reflexivity).
  pose proof (duplicate_descriptions ModelEngine.engine (offer_from "alice")
                answered (pc_of answered) Hpc) as [Ho _].
  pose proof (duplicate_descriptions ModelEngine.engine (answer_from "alice")
                answered (pc_of answered) Hpc) as [Ha [_ He]].
  split; [split |].
  - apply Ho. vm_compute. reflexivity.
  - apply Ha. vm_compute. reflexivity.
  - apply He; vm_compute; reflexivity.
Defined.

(* ===================================================================== *)
(** * Recovery and the track slots *)
(* ===================================================================== *)



(* ===================================================================== *)
(** * The making-offer flag *)
(* ===================================================================== *)

(** The [negotiationneeded] listener never throws, ends with [makingOffer]
    false, and has [makingOffer] true at each of its suspension points. *)
Lemma onnegotiationneeded_holds_flag (E : Engine) (w : World) :
  fst (onnegotiationneeded E w) = Ok tt
  /\ makingOffer (this (run (onnegotiationneeded E) w)) = false
  /\ Forall (fun s => makingOffer s = true)
            (suspensions_of (onnegotiationneeded E) w).
Proof.
  unfold suspensions_of, run, onnegotiationneeded, try_finally, try_catch, bind,
    get_this, modify, await, pc_ask, pc_do, socket_emit, bind, get_this, perform,
    lift, throw, ret.
  simpl. destruct (peerConnection (this w)) as [pc |] eqn:Hpc; simpl;
    rewrite ?Hpc; simpl.
  - destruct (pc_createOffer E (pc_state pc) JUndefined) as [offer | e]; simpl;
      rewrite ?Hpc; simpl.
    + destruct (setLocalDescription E (pc_state pc) offer) as [st | e]; simpl.
      * destruct (socket (this w)); simpl;
          rewrite <- app_assoc, skipn_app_length; repeat split;
          repeat constructor.
      * rewrite <- app_assoc, skipn_app_length. repeat split; repeat constructor.
    + rewrite skipn_app_length. repeat split; repeat constructor.
  - replace (suspended w) with (suspended w ++ []) at 2 by apply app_nil_r.
    rewrite skipn_app_length. repeat split. constructor.
Qed.

(** [createOffer] never writes [makingOffer]: the flag has, at the end and
    at every suspension point, the value it had at the call. *)
Lemma createOffer_ignores_flag (E : Engine) (w : World) :
  makingOffer (this (run (createOffer E) w)) = makingOffer (this w)
  /\ Forall (fun s => makingOffer s = makingOffer (this w))
            (suspensions_of (createOffer E) w).
Proof.
  assert (H : preserves (field_frame makingOffer) (createOffer E))
    by (frame; simpl; intros; reflexivity).
  destruct (H w) as [He [d [Hd Hf]]]. split; [exact He |].
  unfold suspensions_of, run. rewrite Hd, skipn_app_length. exact Hf.
Qed.

(** C6, the code at the failing input.  The service of bob, in a call and
    with [makingOffer] false, is asked for an offer through [createOffer]:
    the offer is created, set as local description and emitted, and at both
    suspension points of the construction [makingOffer] is false.  The same
    construction through the [negotiationneeded] listener has it true at
    both. *)
Theorem createOffer_leaves_makingOffer_false :
  effects_of (createOffer ModelEngine.engine) (in_call "bob")
    = [CreateOffer 0 offerOptions;
       SetLocalDescription 0 ModelEngine.offer_sdp;
       SocketEmit "offer"
         (JObj [("roomId", JStr "room");
                ("sdp", ModelEngine.offer_sdp);
                ("sender", JStr "bob")])]
  /\ map makingOffer (suspensions_of (createOffer ModelEngine.engine) (in_call "bob"))
     = [false; false]
  /\ map makingOffer
         (suspensions_of (onnegotiationneeded ModelEngine.engine) (in_call "bob"))
     = [true; true].
Proof. repeat split; vm_compute; reflexivity. Qed.

(* ===================================================================== *)
(** * Containment of errors *)
(* ===================================================================== *)

(** X1: the signaling handlers, the recovery routine, [startVideoCall] and
    the [negotiationneeded] listener contain every error: whatever the
    envelope, the state and the answers of the engine, they return normally.
    Both revisions. *)
Theorem handlers_never_throw (E : Engine) (data : Envelope) (w : World) :
  fst (handleOffer E data w) = Ok tt
  /\ fst (handleAnswer E data w) = Ok tt
  /\ fst (handleIceCandidate E data w) = Ok tt
  /\ fst (recoverFromSDPError E w) = Ok tt
  /\ fst (startVideoCall E w) = Ok tt
  /\ fst (onnegotiationneeded E w) = Ok tt
  /\ fst (Legacy.handleOffer E data w) = Ok tt
  /\ fst (Legacy.handleAnswer E data w) = Ok tt
  /\ fst (Legacy.handleIceCandidate E data w) = Ok tt
  /\ fst (Legacy.recoverFromSDPError E w) = Ok tt
  /\ fst (Legacy.startVideoCall E w) = Ok tt.
Proof.
  repeat split.
  - apply returns_try_catch, recover_on_sdp_error_returns.
  - apply returns_try_catch, recover_on_sdp_error_returns.
  - apply returns_try_catch. intros _. apply returns_ret.
  - apply recoverFromSDPError_returns.
  - apply returns_try_catch. intros _. apply returns_ret.
  - apply (onnegotiationneeded_holds_flag E w).
  - apply returns_try_catch, Legacy_recover_on_sdp_error_returns.
  - apply returns_try_catch, Legacy_recover_on_sdp_error_returns.
  - apply returns_try_catch. intros _. apply returns_ret.
  - apply Legacy_recoverFromSDPError_returns.
  - apply returns_try_catch. intros _. apply returns_ret.
Qed.

(** X2: by contrast [createOffer] rethrows.  With a connection and local
    media in place, an error of the engine's [createOffer], or of its
    [setLocalDescription] on the created offer, comes out of [createOffer]
    as that same error, and no [offer] envelope is emitted. *)
Theorem createOffer_rethrows (E : Engine) (w : World) (pc : PeerConnection)
    (error : JsError) :
  peerConnection (this w) = Some pc ->
  is_some (localStream (this w)) = true ->
  pc_createOffer E (pc_state pc) offerOptions = Throw error
  \/ (exists offer, pc_createOffer E (pc_state pc) offerOptions = Ok offer
                    /\ setLocalDescription E (pc_state pc) offer = Throw error) ->
  fst (createOffer E w) = Throw error
  /\ forallb (fun e => match e with SocketEmit _ _ => false | _ => true end)
             (effects_of (createOffer E) w) = true
  /\ this (run (createOffer E) w) = this w.
Proof.
  intros Hpc Hls Hfail.
  unfold effects_of, run, createOffer, try_catch, bind, get_this. simpl.
  rewrite Hpc. rewrite (ensure_local_stream_ready E w Hls).
  unfold await, pc_ask, pc_do, bind, get_this, perform, lift, throw, modify. simpl.
  rewrite Hpc. simpl.
  destruct Hfail as [Hc | [offer [Hc Hs]]]; rewrite Hc; simpl.
  - rewrite skipn_app_length. repeat split.
  - rewrite Hpc. simpl. rewrite Hs. simpl.
    rewrite <- app_assoc, skipn_app_length. repeat split.
Qed.

Lemma createOffer_rethrows_witness :
  fst (createOffer refusing_engine (in_call "bob")) = Throw out_of_memory
  /\ forallb (fun e => match e with SocketEmit _ _ => false | _ => true end)
             (effects_of (createOffer refusing_engine) (in_call "bob")) = true
  /\ this (run (createOffer refusing_engine) (in_call "bob")) = this (in_call "bob").
Proof.
  apply (createOffer_rethrows refusing_engine (in_call "bob") (pc_of (in_call "bob"))
           out_of_memory).
  - vm_compute. reflexivity.
  - vm_compute. reflexivity.
  - left. reflexivity.
Defined.

(* ===================================================================== *)
(** * Guards of the handlers *)
(* ===================================================================== *)

(** X3: an answer envelope whose [sdp] is missing, or lacks a truthy [type]
    or a truthy [sdp], is dropped by both revisions: the handler returns
    normally and the world is unchanged. *)
Theorem invalid_answer_dropped (E : Engine) (data : Envelope) (w : World) :
  sdp_valid data = false ->
  handleAnswer E data w = (Ok tt, w)
  /\ Legacy.handleAnswer E data w = (Ok tt, w).
Proof.
  intros H. unfold handleAnswer, Legacy.handleAnswer, try_catch, bind, get_this.
  simpl. destruct (peerConnection (this w)); rewrite ?H; split; reflexivity.
Qed.

Lemma invalid_answer_dropped_witness :
  handleAnswer ModelEngine.engine answer_without_sdp (offering "bob")
    = (Ok tt, offering "bob")
  /\ Legacy.handleAnswer ModelEngine.engine answer_without_sdp (offering "bob")
     = (Ok tt, offering "bob").
Proof.
  apply (invalid_answer_dropped ModelEngine.engine answer_without_sdp (offering "bob")).
  reflexivity.
Defined.

(** X4: while the service has no connection (before [initialize], after
    [disconnect]) an inbound offer, answer or candidate and the commands
    [createOffer] and [startVideoCall] do nothing at all: they return
    normally and the world is unchanged.  Both revisions. *)
Theorem no_connection_no_effect (E : Engine) (data : Envelope) (w : World) :
  peerConnection (this w) = None ->
  handleOffer E data w = (Ok tt, w)
  /\ handleAnswer E data w = (Ok tt, w)
  /\ handleIceCandidate E data w = (Ok tt, w)
  /\ createOffer E w = (Ok tt, w)
  /\ startVideoCall E w = (Ok tt, w)
  /\ Legacy.handleOffer E data w = (Ok tt, w)
  /\ Legacy.handleAnswer E data w = (Ok tt, w)
  /\ Legacy.handleIceCandidate E data w = (Ok tt, w)
  /\ Legacy.createOffer E w = (Ok tt, w)
  /\ Legacy.startVideoCall E w = (Ok tt, w).
Proof.
  intros H.
  unfold handleOffer, handleAnswer, handleIceCandidate, createOffer, startVideoCall,
    Legacy.handleOffer, Legacy.handleAnswer, Legacy.handleIceCandidate,
    Legacy.createOffer, Legacy.startVideoCall, try_catch, bind, get_this.
  simpl. rewrite H. simpl. repeat split.
Qed.

Lemma no_connection_no_effect_witness :
  handleOffer ModelEngine.engine (offer_from "alice") new_world = (Ok tt, new_world)
  /\ handleAnswer ModelEngine.engine (offer_from "alice") new_world = (Ok tt, new_world)
  /\ handleIceCandidate ModelEngine.engine (offer_from "alice") new_world
     = (Ok tt, new_world)
  /\ createOffer ModelEngine.engine new_world = (Ok tt, new_world)
  /\ startVideoCall ModelEngine.engine new_world = (Ok tt, new_world)
  /\ Legacy.handleOffer ModelEngine.engine (offer_from "alice") new_world
     = (Ok tt, new_world)
  /\ Legacy.handleAnswer ModelEngine.engine (offer_from "alice") new_world
     = (Ok tt, new_world)
  /\ Legacy.handleIceCandidate ModelEngine.engine (offer_from "alice") new_world
     = (Ok tt, new_world)
  /\ Legacy.createOffer ModelEngine.engine new_world = (Ok tt, new_world)
  /\ Legacy.startVideoCall ModelEngine.engine new_world = (Ok tt, new_world).
Proof.
  apply (no_connection_no_effect ModelEngine.engine (offer_from "alice") new_world).
  reflexivity.
Defined.

(* ===================================================================== *)
(** * Teardown *)
(* ===================================================================== *)

Lemma forEach_perform {A} (f : A -> Effect) (l : list A) (w : World) :
  forEach l (fun x => perform (f x)) w
    = (Ok tt, mkWorld (this w) (trace w ++ map f l) (suspended w) (next_pc w) (now w)).
Proof.
  revert w. induction l as [| x rest IH]; intros w; simpl.
  - unfold ret. rewrite app_nil_r. now destruct w.
  - unfold bind, perform at 1. rewrite IH. simpl. now rewrite <- app_assoc.
Qed.

Lemma disconnect_eq (w : World) :
  disconnect w
    = (Ok tt, mkWorld (torn_down (this w)) (trace w ++ released (this w))
                      (suspended w) (next_pc w) (now w)).
Proof.
  unfold disconnect, released, torn_down, bind, get_this, when. simpl.
  remember (this w) as s eqn:Hs.
  destruct s as [sk pc ls dc cb room user init mk ig pol sid at_ vt]. simpl.
  destruct dc as [dc |], pc as [pc |], ls as [ls |], sk as [sk |]; simpl;
    unfold bind, modify, ret; simpl;
    rewrite ?forEach_perform; unfold perform; simpl;
    rewrite <- ?Hs; simpl;
    rewrite ?app_nil_r, <- ?app_assoc; reflexivity.
Qed.

(** X5: [disconnect] returns normally from any state; it closes the data
    channel, closes the connection, stops every local track and disconnects
    the socket, in that order and each only if present; afterwards the four
    references are null and [isInitialized] is false, while the room, the
    user, the callbacks and the three negotiation flags are as before.  A
    second [disconnect] does nothing. *)
Theorem disconnect_releases_once (w : World) :
  fst (disconnect w) = Ok tt
  /\ effects_of disconnect w = released (this w)
  /\ this (run disconnect w) = torn_down (this w)
  /\ disconnect (run disconnect w) = (Ok tt, run disconnect w).
Proof.
  unfold effects_of, run. rewrite disconnect_eq. simpl.
  rewrite skipn_app_length. repeat split.
Qed.

(* ===================================================================== *)
(** * Sequences of entry points *)
(* ===================================================================== *)

(** X6: no sequence of entry points without an inbound offer changes
    [ignoreOffer]; in particular the flag survives [disconnect] followed by
    [initialize], after which answers and candidates are still dropped. *)
Theorem ignoreOffer_survives (E : Engine) (ops : list Op) (w : World) :
  existsb is_Offer ops = false ->
  ignoreOffer (this (run_all E ops w)) = ignoreOffer (this w).
Proof.
  revert w. induction ops as [| op rest IH]; intros w H; simpl in *.
  - reflexivity.
  - apply orb_false_elim in H. destruct H as [Hop Hrest].
    rewrite (IH _ Hrest).
    apply (exec_keeps_ignoreOffer E op).
    intros data Heq. subst op. discriminate Hop.
Qed.

Lemma ignoreOffer_survives_witness :
  ignoreOffer
    (this (run_all ModelEngine.engine
             [Disconnect; Initialize "wss://signal" "room" "alice" 0;
              StartLocalStream true true; Answer (answer_from "bob")]
             after_glare))
  = ignoreOffer (this after_glare).
Proof.
  apply (ignoreOffer_survives ModelEngine.engine
           [Disconnect; Initialize "wss://signal" "room" "alice" 0;
            StartLocalStream true true; Answer (answer_from "bob")]
           after_glare).
  reflexivity.
Defined.

(* ===================================================================== *)
(** * Initialisation *)
(* ===================================================================== *)

(** X7: when the signaling server cannot be reached, [initialize] on a
    service that is not initialised throws: the error of the [connect_error]
    event, or [Socket connection timeout] when nothing happened before the
    timer.  The socket has been opened and is kept, nothing has been
    emitted, no connection has been created and [isInitialized] stays
    false, but [roomId], [userId] and the callbacks are already those of the
    call. *)
Theorem initialize_fails_without_server (E : Engine) (server room user : string)
    (cb : nat) (w : World) (error : JsError) :
  isInitialized (this w) = false ->
  connect_error (io_connect E server) = Some error ->
  fst (initialize E server room user cb w) = Throw error
  /\ effects_of (initialize E server room user cb) w = [SocketOpen server]
  /\ this (run (initialize E server room user cb) w)
     = set_socket (Some (mkSocket server false))
         (set_callbacks (Some cb) (set_userId user (set_roomId room (this w)))).
Proof.
  intros Hi Hc.
  assert (Heq : initialize E server room user cb w
                = (Throw error,
                   mkWorld (set_socket (Some (mkSocket server false))
                              (set_callbacks (Some cb)
                                 (set_userId user (set_roomId room (this w)))))
                           (trace w ++ [SocketOpen server])
                           (suspended w
                              ++ [set_socket (Some (mkSocket server false))
                                    (set_callbacks (Some cb)
                                       (set_userId user (set_roomId room (this w))))])
                           (next_pc w) (now w))).
  { unfold initialize, bind at 1, get_this. rewrite Hi.
    unfold try_catch, bind, modify, await, initializeSocket, bind, perform, modify,
      throw. simpl.
    destruct (io_connect E server) as [| e |]; simpl in Hc.
    - discriminate Hc.
    - inversion Hc. subst. reflexivity.
    - inversion Hc. subst. reflexivity. }
  unfold effects_of, run. rewrite Heq. simpl. rewrite skipn_app_length.
  repeat split.
Qed.

Lemma initialize_fails_without_server_witness :
  fst (initialize unreachable_engine "wss://signal" "room" "bob" 0 new_world)
    = Throw (mkError "Socket connection timeout")
  /\ effects_of (initialize unreachable_engine "wss://signal" "room" "bob" 0) new_world
     = [SocketOpen "wss://signal"]
  /\ this (run (initialize unreachable_engine "wss://signal" "room" "bob" 0) new_world)
     = set_socket (Some (mkSocket "wss://signal" false))
         (set_callbacks (Some 0)
            (set_userId "bob" (set_roomId "room" (this new_world)))).
Proof.
  apply (initialize_fails_without_server unreachable_engine "wss://signal" "room"
           "bob" 0 new_world (mkError "Socket connection timeout")).
  - reflexivity.
  - reflexivity.
Defined.

Lemma initializePeerConnection_appends (E : Engine) :
  preserves (trace_frame (fun _ => true)) (initializePeerConnection E).
Proof. framed. Qed.

Lemma initializePeerConnection_eq (E : Engine) (w : World) :
  exists rest,
    trace (run (initializePeerConnection E) w)
      = trace w ++ NewRTCPeerConnection (next_pc w) :: rest.
Proof.
  unfold run, initializePeerConnection. unfold bind at 1, fresh_pc_id.
  unfold bind at 1, perform at 1. unfold bind at 1, modify at 1.
  match goal with
  | |- context [snd (?m ?w0)] =>
      assert (H : preserves (trace_frame (fun _ => true)) m) by framed;
      destruct (H w0) as [d [Hd _]]
  end.
  exists d. unfold rel, trace_frame, appends in Hd.
  etransitivity; [exact Hd |]. simpl. now rewrite <- app_assoc.
Qed.

Lemma initializeSocket_connects (E : Engine) (server : string) (w : World) :
  io_connect E server = Connects ->
  initializeSocket E server w
    = (Ok tt,
       mkWorld (set_socket (Some (mkSocket server true)) (this w))
               (trace w ++ [SocketOpen server;
                            SocketEmit "join" (JStr (roomId (this w)))])
               (suspended w) (next_pc w) (now w)).
Proof.
  intros Hc. unfold initializeSocket, bind, perform, modify, socket_emit, bind,
    get_this, perform. rewrite Hc. simpl. now rewrite <- app_assoc.
Qed.

(** X8: when the server is reached, [initialize] on a service that is not
    initialised opens the socket, emits [join] with the room it was given
    (not a room of an earlier session) and only then creates the
    connection, whose identity is fresh. *)
Theorem initialize_joins_then_connects (E : Engine) (server room user : string)
    (cb : nat) (w : World) :
  isInitialized (this w) = false ->
  io_connect E server = Connects ->
  exists rest,
    effects_of (initialize E server room user cb) w
      = SocketOpen server :: SocketEmit "join" (JStr room)
        :: NewRTCPeerConnection (next_pc w) :: rest.
Proof.
  intros Hi Hc.
  pose (w0 := mkWorld (set_callbacks (Some cb)
                         (set_userId user (set_roomId room (this w))))
                      (trace w) (suspended w) (next_pc w) (now w)).
  pose (w1 := mkWorld (set_socket (Some (mkSocket server true)) (this w0))
                      (trace w ++ [SocketOpen server; SocketEmit "join" (JStr room)])
                      (suspended w
                         ++ [set_socket (Some (mkSocket server true)) (this w0)])
                      (next_pc w) (now w)).
  destruct (initializePeerConnection_eq E w1) as [rest Hrest].
  assert (Hsock : await (initializeSocket E server) w0 = (Ok tt, w1)).
  { rewrite (await_eq _ _ _ _ (initializeSocket_connects E server w0 Hc)).
    reflexivity. }
  assert (Hinit : initialize E server room user cb w
                  = try_catch
                      (await (initializeSocket E server) ;;
                       await (initializePeerConnection E) ;;
                       modify (set_isInitialized true))
                      (fun error => throw error) w0).
  { unfold initialize. unfold bind at 1, get_this. rewrite Hi. reflexivity. }
  exists rest. unfold effects_of, run. rewrite Hinit.
  unfold try_catch. rewrite (bind_ok _ _ w0 w1 tt Hsock).
  unfold run in Hrest. unfold bind, await.
  destruct (initializePeerConnection E w1) as [[[] | e] w2]; simpl in *;
    rewrite Hrest; unfold w1; simpl;
    rewrite <- !app_assoc; simpl; now rewrite skipn_app_length.
Qed.

Lemma initialize_joins_then_connects_witness :
  exists rest,
    effects_of (initialize ModelEngine.engine "wss://signal" "lobby" "bob" 0) new_world
      = SocketOpen "wss://signal" :: SocketEmit "join" (JStr "lobby")
        :: NewRTCPeerConnection (next_pc new_world) :: rest.
Proof.
  apply (initialize_joins_then_connects ModelEngine.engine "wss://signal" "lobby"
           "bob" 0 new_world).
  - reflexivity.
  - reflexivity.
Defined.

(* ===================================================================== *)
(** * Camera and microphone toggles *)
(* ===================================================================== *)

Lemma flip_flip (t : Track) : flip (flip t) = t.
Proof. destruct t. unfold flip. simpl. now rewrite negb_involutive. Qed.

Lemma flip_first_twice (k : string) (stream : MediaStream) :
  flip_first k (flip_first k stream) = stream.
Proof.
  induction stream as [| t rest IH]; simpl.
  - reflexivity.
  - destruct (kind t =? k)%string eqn:Hk; simpl.
    + rewrite Hk. now rewrite flip_flip.
    + rewrite Hk. now rewrite IH.
Qed.

Lemma first_of_kind_flipped (k : string) (stream : MediaStream) :
  first_of_kind k (flip_first k stream) = option_map flip (first_of_kind k stream).
Proof.
  induction stream as [| t rest IH]; simpl.
  - reflexivity.
  - destruct (kind t =? k)%string eqn:Hk; simpl; rewrite Hk; [reflexivity | exact IH].
Qed.

Lemma flip_first_other_kind (k k' : string) (stream : MediaStream) :
  k <> k' ->
  filter (fun t => (kind t =? k')%string) (flip_first k stream)
    = filter (fun t => (kind t =? k')%string) stream.
Proof.
  intros Hne. induction stream as [| t rest IH]; simpl.
  - reflexivity.
  - destruct (kind t =? k)%string eqn:Hk; simpl.
    + apply String.eqb_eq in Hk.
      assert (Hk' : (kind t =? k')%string = false)
        by (apply String.eqb_neq; congruence).
      now rewrite Hk'.
    + now rewrite IH.
Qed.

(** X9: a toggle flips [enabled] on the first local track of its kind and
    returns the new value; the tracks of the other kind are left alone and
    nothing is done to the outside.  Toggling twice gives back the world
    one started from, the second call returning the original value. *)
Theorem toggle_round_trip (k : string) (w : World) (stream : MediaStream) (t : Track) :
  localStream (this w) = Some stream ->
  first_of_kind k stream = Some t ->
  fst (toggle k w) = Ok (negb (enabled t))
  /\ first_of_kind k (flip_first k stream) = Some (flip t)
  /\ localStream (this (run (toggle k) w)) = Some (flip_first k stream)
  /\ trace (run (toggle k) w) = trace w
  /\ (forall k', k <> k' ->
        filter (fun t => (kind t =? k')%string) (flip_first k stream)
          = filter (fun t => (kind t =? k')%string) stream)
  /\ toggle k (run (toggle k) w) = (Ok (enabled t), w).
Proof.
  intros Hs Hf.
  assert (Heq : toggle k w
                = (Ok (negb (enabled t)),
                   mkWorld (set_localStream (Some (flip_first k stream)) (this w))
                           (trace w) (suspended w) (next_pc w) (now w))).
  { unfold toggle, bind, get_this. simpl. rewrite Hs, Hf. reflexivity. }
  unfold run. rewrite Heq. simpl. repeat split.
  - rewrite first_of_kind_flipped, Hf. reflexivity.
  - intros k' Hne. now apply flip_first_other_kind.
  - unfold toggle, bind, get_this. simpl.
    rewrite first_of_kind_flipped, Hf. simpl.
    rewrite flip_first_twice, negb_involutive. unfold modify, ret. simpl.
    f_equal. clear Heq. destruct w as [s tr su np nw]. destruct s.
    simpl in *. subst. reflexivity.
Qed.

Lemma toggle_round_trip_witness :
  fst (toggleCamera (in_call "bob")) = Ok false
  /\ toggleCamera (run toggleCamera (in_call "bob")) = (Ok true, in_call "bob").
Proof.
  destruct (toggle_round_trip "video" (in_call "bob")
              [ModelEngine.microphone; ModelEngine.camera] ModelEngine.camera)
    as [H1 [_ [_ [_ [_ H2]]]]].
  - vm_compute. reflexivity.
  - reflexivity.
  - split; [exact H1 | exact H2].
Defined.

(** X10: with no local stream, or with a stream that has no track of the
    kind, a toggle returns [false] and changes nothing. *)
Theorem toggle_without_track (k : string) (w : World) :
  match localStream (this w) with
  | Some stream => first_of_kind k stream = None
  | None => True
  end ->
  toggle k w = (Ok false, w).
Proof.
  intros H. unfold toggle, bind, get_this. simpl.
  destruct (localStream (this w)) as [stream |]; [rewrite H |]; reflexivity.
Qed.

Lemma toggle_without_track_witness :
  toggleMicrophone (initialized "bob") = (Ok false, initialized "bob").
Proof.
  apply (toggle_without_track "audio" (initialized "bob")).
  vm_compute. exact I.
Defined.

(* ===================================================================== *)
(** * Attaching local media *)
(* ===================================================================== *)

Lemma sender_replaceTrack_eq (E : Engine) (tr : TransceiverRef) (track : Track)
    (w : World) :
  is_some (peerConnection (this w)) = true ->
  exists w',
    sender_replaceTrack E tr track w = (Ok tt, w')
    /\ trace w' = trace w ++ [ReplaceTrack tr track]
    /\ beside_connection (this w') = beside_connection (this w)
    /\ is_some (peerConnection (this w')) = true
    /\ suspended w' = suspended w.
Proof.
  intros Hpc. unfold sender_replaceTrack, bind, perform, get_this, modify, ret.
  simpl. destruct (peerConnection (this w)) as [pc |] eqn:Hp; [| discriminate Hpc].
  destruct (Nat.eqb (pc_id pc) (tr_owner tr));
    (eexists; split; [reflexivity |]; simpl; rewrite ?Hp; repeat split).
Qed.

Lemma attach_track_slot (E : Engine) (track : Track) (w : World)
    (a v : TransceiverRef) :
  is_some (peerConnection (this w)) = true ->
  audioTransceiver (this w) = Some a ->
  videoTransceiver (this w) = Some v ->
  audio_or_video track = true ->
  exists w',
    attach_track E track w = (Ok tt, w')
    /\ trace w' = trace w ++ [ReplaceTrack (slot_for a v track) track]
    /\ beside_connection (this w') = beside_connection (this w)
    /\ is_some (peerConnection (this w')) = true
    /\ suspended w' = suspended w.
Proof.
  intros Hpc Ha Hv Hk. unfold attach_track, slot_for.
  rewrite (bind_ok get_this _ w w (this w) eq_refl). rewrite Ha, Hv.
  unfold audio_or_video in Hk.
  destruct (kind track =? "audio")%string.
  - now apply sender_replaceTrack_eq.
  - simpl in Hk. rewrite Hk. now apply sender_replaceTrack_eq.
Qed.

Lemma beside_audio (s s' : Service) :
  beside_connection s' = beside_connection s ->
  audioTransceiver s' = audioTransceiver s
  /\ videoTransceiver s' = videoTransceiver s
  /\ callbacks s' = callbacks s
  /\ localStream s' = localStream s.
Proof.
  intros H. repeat split.
  - exact (f_equal audioTransceiver H).
  - exact (f_equal videoTransceiver H).
  - exact (f_equal callbacks H).
  - exact (f_equal localStream H).
Qed.

Lemma forEach_attach_slots (E : Engine) (stream : MediaStream) (w : World)
    (a v : TransceiverRef) :
  is_some (peerConnection (this w)) = true ->
  audioTransceiver (this w) = Some a ->
  videoTransceiver (this w) = Some v ->
  forallb audio_or_video stream = true ->
  exists w',
    forEach stream (attach_track E) w = (Ok tt, w')
    /\ trace w' = trace w ++ map (fun t => ReplaceTrack (slot_for a v t) t) stream
    /\ beside_connection (this w') = beside_connection (this w)
    /\ is_some (peerConnection (this w')) = true
    /\ suspended w' = suspended w.
Proof.
  revert w. induction stream as [| t rest IH]; intros w Hpc Ha Hv Hall; simpl in *.
  - exists w. rewrite app_nil_r. repeat split. exact Hpc.
  - apply andb_prop in Hall. destruct Hall as [Ht Hrest].
    destruct (attach_track_slot E t w a v Hpc Ha Hv Ht)
      as [w1 [H1 [T1 [B1 [P1 S1]]]]].
    destruct (beside_audio _ _ B1) as [A1 [V1 _]].
    destruct (IH w1 P1 (eq_trans A1 Ha) (eq_trans V1 Hv) Hrest)
      as [w2 [H2 [T2 [B2 [P2 S2]]]]].
    exists w2. rewrite (bind_ok _ _ w w1 tt H1). repeat split.
    + exact H2.
    + rewrite T2, T1, <- app_assoc. reflexivity.
    + congruence.
    + exact P2.
    + congruence.
Qed.

(** X11: on a service with a connection and both pre-created transceivers,
    when [getUserMedia] delivers at the first request a stream of audio and
    video tracks, [startLocalStream] asks for media once, puts every track
    in the transceiver of its kind with [replaceTrack], in the order of the
    stream, never calls [addTrack], notifies the local-stream callback if
    there is one, keeps the stream and returns normally. *)
Theorem startLocalStream_fills_slots (E : Engine) (video audio : bool) (w : World)
    (a v : TransceiverRef) (stream : MediaStream) :
  is_some (peerConnection (this w)) = true ->
  audioTransceiver (this w) = Some a ->
  videoTransceiver (this w) = Some v ->
  getUserMedia E (constraints video audio) = Ok stream ->
  forallb audio_or_video stream = true ->
  fst (startLocalStream E video audio w) = Ok tt
  /\ effects_of (startLocalStream E video audio) w
     = GetUserMedia (constraints video audio)
       :: map (fun t => ReplaceTrack (slot_for a v t) t) stream
       ++ (if is_some (callbacks (this w)) then [OnLocalStream (Some stream)] else [])
  /\ localStream (this (run (startLocalStream E video audio) w)) = Some stream.
Proof.
  intros Hpc Ha Hv Hmedia Hall.
  pose (w1 := mkWorld (set_localStream (Some stream) (this w))
                      (trace w ++ [GetUserMedia (constraints video audio)])
                      (suspended w ++ [this w]) (next_pc w) (now w)).
  assert (Hacq : acquire E (constraints video audio) w = (Ok tt, w1)).
  { unfold acquire, bind, await, perform, lift, modify. simpl. rewrite Hmedia.
    reflexivity. }
  destruct (forEach_attach_slots E stream w1 a v Hpc Ha Hv Hall)
    as [w2 [H2 [T2 [B2 [P2 S2]]]]].
  destruct (beside_audio _ _ B2) as [_ [_ [C2 L2]]]. simpl in C2, L2.
  assert (Hatt : attach_local_tracks E w1 = (Ok tt, w2)).
  { unfold attach_local_tracks.
    rewrite (bind_ok get_this _ w1 w1 (this w1) eq_refl). simpl.
    destruct (peerConnection (this w)); [exact H2 | discriminate Hpc]. }
  assert (Heq : startLocalStream E video audio w
                = (Ok tt,
                   mkWorld (this w2)
                           (trace w2 ++ (if is_some (callbacks (this w))
                                         then [OnLocalStream (Some stream)] else []))
                           (suspended w2) (next_pc w2) (now w2))).
  { unfold startLocalStream, try_catch.
    rewrite (bind_ok _ _ w w1 tt Hacq). rewrite (bind_ok _ _ w1 w2 tt Hatt).
    unfold notify_local_stream, bind, get_this, when. rewrite C2, L2.
    destruct (callbacks (this w)); simpl.
    - reflexivity.
    - rewrite app_nil_r. now destruct w2. }
  unfold effects_of, run. rewrite Heq. simpl. repeat split.
  - rewrite T2. simpl. rewrite <- !app_assoc. simpl. now rewrite skipn_app_length.
  - exact L2.
Qed.

Lemma startLocalStream_fills_slots_witness :
  fst (startLocalStream ModelEngine.engine true true (initialized "bob")) = Ok tt
  /\ effects_of (startLocalStream ModelEngine.engine true true) (initialized "bob")
     = GetUserMedia (constraints true true)
       :: map (fun t => ReplaceTrack
                          (slot_for (mkTransceiverRef 0 0) (mkTransceiverRef 0 1) t) t)
              [ModelEngine.microphone; ModelEngine.camera]
       ++ (if is_some (callbacks (this (initialized "bob")))
           then [OnLocalStream (Some [ModelEngine.microphone; ModelEngine.camera])]
           else [])
  /\ localStream (this (run (startLocalStream ModelEngine.engine true true)
                            (initialized "bob")))
     = Some [ModelEngine.microphone; ModelEngine.camera].
Proof.
  apply (startLocalStream_fills_slots ModelEngine.engine true true (initialized "bob")
           (mkTransceiverRef 0 0) (mkTransceiverRef 0 1)
           [ModelEngine.microphone; ModelEngine.camera]).
  - vm_compute. reflexivity.
  - vm_compute. reflexivity.
  - vm_compute. reflexivity.
  - reflexivity.
  - reflexivity.
Defined.

(* ===================================================================== *)
(** * The scope of recovery *)
(* ===================================================================== *)

(** X12: recovery only rebuilds the connection.  Whatever the engine does,
    its effects are closing the old connection, creating the new one, its
    transceivers and its data channel, and [addTrack] calls: nothing is
    emitted on the socket, no media is requested again and no callback is
    invoked; the socket, the local stream, the callbacks, the room, the
    user, [isInitialized] and the three negotiation flags are unchanged. *)
Theorem recovery_scope (E : Engine) (w : World) :
  forallb recovery_effect (effects_of (recoverFromSDPError E) w) = true
  /\ session_fields (this (run (recoverFromSDPError E) w)) = session_fields (this w).
Proof.
  split.
  - apply appends_effects_of.
    assert (H : preserves (trace_frame recovery_effect) (recoverFromSDPError E))
      by framed.
    apply H.
  - assert (H : preserves (field_frame session_fields) (recoverFromSDPError E))
      by (frame; simpl; intros; reflexivity).
    apply (H w).
Qed.

(* ===================================================================== *)
(** * Notifications *)
(* ===================================================================== *)



(* ===================================================================== *)
(** * Candidates *)
(* ===================================================================== *)

(** X14: a candidate the engine rejects does not abort anything.  With a
    connection, and in the perfect-negotiation revision outside the ignore
    window, the handler hands the candidate to the engine, swallows the
    error and returns normally; the service object, connection included, is
    exactly as before.  Both revisions. *)
Theorem rejected_candidate_contained (E : Engine) (data : Envelope) (w : World)
    (pc : PeerConnection) (error : JsError) :
  peerConnection (this w) = Some pc ->
  addIceCandidate E (pc_state pc) (assoc "candidate" data) = Throw error ->
  (ignoreOffer (this w) = false ->
     handleIceCandidate E data w
       = (Ok tt,
          mkWorld (this w)
                  (trace w ++ [AddIceCandidate (pc_id pc) (assoc "candidate" data)])
                  (suspended w ++ [this w]) (next_pc w) (now w)))
  /\ Legacy.handleIceCandidate E data w
     = (Ok tt,
        mkWorld (this w)
                (trace w ++ [AddIceCandidate (pc_id pc) (assoc "candidate" data)])
                (suspended w ++ [this w]) (next_pc w) (now w)).
Proof.
  intros Hpc Hrej. split; [intros Hi |];
    unfold handleIceCandidate, Legacy.handleIceCandidate, try_catch, bind, get_this;
    simpl; rewrite Hpc; rewrite ?Hi;
    unfold await, pc_do, bind, get_this, perform, modify, throw, ret; simpl;
    rewrite Hpc; simpl; rewrite Hrej; reflexivity.
Qed.

Lemma rejected_candidate_contained_witness :
  fst (handleIceCandidate deaf_engine (candidate_from "alice") (in_call "bob")) = Ok tt
  /\ this (run (handleIceCandidate deaf_engine (candidate_from "alice")) (in_call "bob"))
     = this (in_call "bob").
Proof.
  destruct (rejected_candidate_contained deaf_engine (candidate_from "alice")
              (in_call "bob") (pc_of (in_call "bob")) bad_candidate) as [H _].
  - vm_compute. reflexivity.
  - reflexivity.
  - unfold run. rewrite H; [split; reflexivity |]. vm_compute. reflexivity.
Defined.

(* ===================================================================== *)
(** * Rejected descriptions *)
(* ===================================================================== *)

Lemma recoverFromSDPError_prefix (E : Engine) (w : World) (pc : PeerConnection) :
  peerConnection (this w) = Some pc ->
  exists rest,
    trace (run (recoverFromSDPError E) w)
      = trace w ++ ClosePeerConnection (pc_id pc)
                :: NewRTCPeerConnection (next_pc w) :: rest.
Proof.
  intros Hpc.
  pose (w1 := mkWorld (set_peerConnection
                         (Some (mkPC (pc_id pc) (pc_close E (pc_state pc)))) (this w))
                      (trace w ++ [ClosePeerConnection (pc_id pc)])
                      (suspended w) (next_pc w) (now w)).
  destruct (initializePeerConnection_eq E w1) as [d1 Hd1]. unfold run in Hd1.
  unfold run, recoverFromSDPError, try_catch.
  rewrite (bind_ok get_this _ w w (this w) eq_refl). rewrite Hpc.
  assert (Hclose : (perform (ClosePeerConnection (pc_id pc)) ;;
                    modify (set_peerConnection
                              (Some (mkPC (pc_id pc) (pc_close E (pc_state pc)))))) w
                   = (Ok tt, w1)) by reflexivity.
  rewrite (bind_ok _ _ w w1 tt Hclose).
  unfold bind at 1, await.
  destruct (initializePeerConnection E w1) as [[[] | e] w2]; simpl in *.
  - match goal with
    | |- context [snd (let (r, w') := ?m ?w0 in _)] =>
        assert (H : preserves (trace_frame (fun _ => true)) m) by framed;
        destruct (H w0) as [d2 [Hd2 _]]; destruct (m w0) as [[[] | e] w3]
    end; simpl in *; rewrite Hd2, Hd1; exists (d1 ++ d2);
      now rewrite <- !app_assoc.
  - rewrite Hd1. exists d1. now rewrite <- !app_assoc.
Qed.

(** X15: the answer handler of the perfect-negotiation revision, for a
    valid answer outside the ignore window that the engine rejects.  If the
    message of the error contains neither [error_content] nor
    [InvalidStateError], the round is abandoned and the connection is kept:
    the service object is unchanged.  If it contains one of the two, the
    handler closes the connection and creates a new one with a fresh
    identity.  In both cases it returns normally. *)
Theorem rejected_answer (E : Engine) (data : Envelope) (w : World)
    (pc : PeerConnection) (error : JsError) :
  peerConnection (this w) = Some pc ->
  sdp_valid data = true ->
  ignoreOffer (this w) = false ->
  setRemoteDescription E (pc_state pc) (assoc "sdp" data) = Throw error ->
  (is_sdp_error error = false ->
     handleAnswer E data w
       = (Ok tt,
          mkWorld (this w)
                  (trace w ++ [SetRemoteDescription (pc_id pc) (assoc "sdp" data)])
                  (suspended w ++ [this w]) (next_pc w) (now w)))
  /\ (is_sdp_error error = true ->
        exists rest,
          effects_of (handleAnswer E data) w
            = SetRemoteDescription (pc_id pc) (assoc "sdp" data)
              :: ClosePeerConnection (pc_id pc)
              :: NewRTCPeerConnection (next_pc w) :: rest).
Proof.
  intros Hpc Hv Hi Hrej.
  pose (w1 := mkWorld (this w)
                      (trace w ++ [SetRemoteDescription (pc_id pc) (assoc "sdp" data)])
                      (suspended w ++ [this w]) (next_pc w) (now w)).
  assert (Heq : handleAnswer E data w = recover_on_sdp_error E error w1).
  { unfold handleAnswer, try_catch, bind, get_this. simpl. rewrite Hpc, Hv, Hi.
    simpl. unfold await, pc_do, bind, get_this, perform, modify, throw. simpl.
    rewrite Hpc. simpl. rewrite Hrej. reflexivity. }
  split; intros Hc.
  - rewrite Heq. unfold recover_on_sdp_error. rewrite Hc. reflexivity.
  - destruct (recoverFromSDPError_prefix E w1 pc Hpc) as [rest Hrest].
    unfold run in Hrest. exists rest.
    unfold effects_of, run. rewrite Heq. unfold recover_on_sdp_error. rewrite Hc.
    unfold await. destruct (recoverFromSDPError E w1) as [r w2]. simpl in *.
    rewrite Hrest. rewrite <- app_assoc. simpl. now rewrite skipn_app_length.
Qed.

Lemma rejected_answer_witness :
  this (run (handleAnswer ModelEngine.engine (garbled_answer_from "alice"))
            (offering "bob"))
    = this (offering "bob")
  /\ exists rest,
       effects_of (handleAnswer ModelEngine.engine (answer_from "alice")) answered
         = SetRemoteDescription (pc_id (pc_of answered))
             (assoc "sdp" (answer_from "alice"))
           :: ClosePeerConnection (pc_id (pc_of answered))
           :: NewRTCPeerConnection (next_pc answered) :: rest.
Proof.
  split.
  - destruct (rejected_answer ModelEngine.engine (garbled_answer_from "alice")
                (offering "bob") (pc_of (offering "bob")) ModelEngine.unparsable)
      as [H _].
    + vm_compute. reflexivity.
    + reflexivity.
    + vm_compute. reflexivity.
    + vm_compute. reflexivity.
    + unfold run. rewrite H; [reflexivity |]. vm_compute. reflexivity.
  - refine (proj2 (rejected_answer ModelEngine.engine (answer_from "alice") answered
                     (pc_of answered)
                     (ModelEngine.wrong_state (pc_state (pc_of answered)))
                     _ _ _ _) _).
    + vm_compute. reflexivity.
    + reflexivity.
    + vm_compute. reflexivity.
    + vm_compute. reflexivity.
    + vm_compute. reflexivity.
Defined.

(* ===================================================================== *)
(** * Degenerate identifiers *)
(* ===================================================================== *)

Lemma string_gt_irrefl (a : string) : string_gt a a = false.
Proof.
  unfold string_gt, String.ltb.
  pose proof (String.compare_antisym a a) as H.
  destruct (String.compare a a); simpl in H; try discriminate H; reflexivity.
Qed.

(** X16: an offer whose sender has the identifier of the receiving service,
    or has none, finds the service impolite; if it arrives in a collision it
    is therefore dropped, on both sides when both carry the same
    identifier. *)
Theorem same_identifier_is_impolite (E : Engine) (data : Envelope) (w : World)
    (pc : PeerConnection) :
  peerConnection (this w) = Some pc ->
  sdp_valid data = true ->
  assoc "sender" data = JStr (userId (this w))
  \/ truthy (assoc "sender" data) = false ->
  isPolite (this (run (handleOffer E data) w)) = false
  /\ (offerCollision (this w) pc = true ->
        handleOffer E data w
          = (Ok tt, with_this (set_ignoreOffer true (set_isPolite false (this w))) w)).
Proof.
  intros Hpc Hv Hs.
  assert (Hp : polite (userId (this w)) (assoc "sender" data) = false).
  { unfold polite. destruct Hs as [Hs | Hs].
    - rewrite Hs. simpl. rewrite string_gt_irrefl. now rewrite andb_false_r.
    - rewrite Hs. now rewrite andb_false_r. }
  split.
  - now rewrite (handleOffer_isPolite E data w pc Hpc Hv).
  - intros Hc. rewrite (handleOffer_eq E data w pc Hpc Hv).
    unfold decided. rewrite Hp, Hc. reflexivity.
Qed.

Lemma same_identifier_is_impolite_witness :
  isPolite (this (run (handleOffer ModelEngine.engine (offer_from "bob"))
                      (offering "bob"))) = false
  /\ handleOffer ModelEngine.engine (offer_from "bob") (offering "bob")
     = (Ok tt,
        with_this (set_ignoreOffer true (set_isPolite false (this (offering "bob"))))
                  (offering "bob")).
Proof.
  destruct (same_identifier_is_impolite ModelEngine.engine (offer_from "bob")
              (offering "bob") (pc_of (offering "bob"))) as [H1 H2].
  - vm_compute. reflexivity.
  - reflexivity.
  - left. vm_compute. reflexivity.
  - split; [exact H1 | apply H2]. vm_compute. reflexivity.
Defined.

(* ===================================================================== *)
(** * Requests for local media *)
(* ===================================================================== *)

Lemma attach_effects_no_request (d : list Effect) :
  forallb attach_effect d = true ->
  filter is_GetUserMedia d = [] /\ forallb local_media_effect d = true.
Proof.
  induction d as [| e rest IH]; simpl; intros H.
  - split; reflexivity.
  - apply andb_prop in H. destruct H as [He Hr].
    unfold attach_effect in He. apply andb_prop in He. destruct He as [Hl Hn].
    apply negb_true_iff in Hn. rewrite Hn, Hl. simpl. now apply IH.
Qed.

Lemma acquire_then_attach (E : Engine) (c : JsVal) (w : World) :
  exists d,
    trace (snd ((acquire E c ;; attach_local_tracks E ;; notify_local_stream) w))
      = trace w ++ GetUserMedia c :: d
    /\ forallb attach_effect d = true.
Proof.
  assert (H : preserves (trace_frame attach_effect)
                        (attach_local_tracks E ;; notify_local_stream)) by framed.
  unfold bind at 1, acquire, bind at 1, await, perform, lift, bind at 1. simpl.
  destruct (getUserMedia E c) as [stream | e]; simpl.
  - match goal with
    | |- context [snd (?m ?w0)] => destruct (H w0) as [d [Hd Hf]]
    end.
    exists d. split; [| exact Hf]. etransitivity; [exact Hd |].
    simpl. now rewrite <- app_assoc.
  - exists []. split; reflexivity.
Qed.

Lemma acquire_refused (E : Engine) (c : JsVal) (k : M unit) (w : World) (error : JsError) :
  getUserMedia E c = Throw error ->
  (acquire E c ;; k) w
    = (Throw error,
       mkWorld (this w) (trace w ++ [GetUserMedia c]) (suspended w ++ [this w])
               (next_pc w) (now w)).
Proof.
  intros H. unfold bind at 1, acquire, bind at 1, await, perform, lift, bind at 1.
  simpl. rewrite H. reflexivity.
Qed.

Lemma acquire_unattached (E : Engine) (c : JsVal) (w : World) (stream : MediaStream) :
  getUserMedia E c = Ok stream ->
  peerConnection (this w) = None ->
  fst ((acquire E c ;; attach_local_tracks E ;; notify_local_stream) w) = Ok tt.
Proof.
  intros H Hpc.
  unfold bind, acquire, await, perform, lift, modify, attach_local_tracks,
    notify_local_stream, when, get_this, bind, ret.
  simpl. rewrite H. simpl. rewrite Hpc. simpl.
  destruct (callbacks (this w)); reflexivity.
Qed.

(** X17: the second request for media is tied to the failure of the first
    attempt.  [startLocalStream] first requests media with the full
    constraints, attaches the tracks and notifies the callback.  When that
    attempt succeeds, it is the only request and the method returns
    normally.  When it fails and audio or video was asked for, exactly one
    more request follows, with the plain constraints, and the method ends as
    that second attempt ends, run from where the first one stopped.  When it
    fails and neither was asked for, there is no second request and the
    error of the first attempt is rethrown.  The first attempt fails
    whenever the engine refuses the request, and succeeds when the engine
    grants it and there is no connection to attach to.  All the method does
    to the outside is request media, attach tracks and notify the
    local-stream callback. *)
Theorem startLocalStream_requests (E : Engine) (video audio : bool) (w : World) :
  match fst ((acquire E (constraints video audio) ;;
              attach_local_tracks E ;; notify_local_stream) w) with
  | Ok _ =>
      filter is_GetUserMedia (effects_of (startLocalStream E video audio) w)
        = [GetUserMedia (constraints video audio)]
      /\ fst (startLocalStream E video audio w) = Ok tt
  | Throw error =>
      if video || audio
      then filter is_GetUserMedia (effects_of (startLocalStream E video audio) w)
             = [GetUserMedia (constraints video audio);
                GetUserMedia (simpleConstraints video audio)]
           /\ fst (startLocalStream E video audio w)
              = fst ((acquire E (simpleConstraints video audio) ;;
                      attach_local_tracks E ;; notify_local_stream)
                       (snd ((acquire E (constraints video audio) ;;
                              attach_local_tracks E ;; notify_local_stream) w)))
      else filter is_GetUserMedia (effects_of (startLocalStream E video audio) w)
             = [GetUserMedia (constraints video audio)]
           /\ fst (startLocalStream E video audio w) = Throw error
  end
  /\ (forall error : JsError,
        getUserMedia E (constraints video audio) = Throw error ->
        fst ((acquire E (constraints video audio) ;;
              attach_local_tracks E ;; notify_local_stream) w) = Throw error)
  /\ (forall stream : MediaStream,
        getUserMedia E (constraints video audio) = Ok stream ->
        peerConnection (this w) = None ->
        fst ((acquire E (constraints video audio) ;;
              attach_local_tracks E ;; notify_local_stream) w) = Ok tt)
  /\ forallb local_media_effect (effects_of (startLocalStream E video audio) w) = true.
Proof.
  split; [| split; [| split]].
  - unfold effects_of, run, startLocalStream, try_catch.
    destruct (acquire_then_attach E (constraints video audio) w) as [d1 [H1 F1]].
    destruct (attach_effects_no_request d1 F1) as [Hn1 _].
    destruct ((acquire E (constraints video audio) ;;
               attach_local_tracks E ;; notify_local_stream) w) as [[[] | e] w1];
      simpl in H1; simpl.
    + rewrite H1, skipn_app_length. simpl. rewrite Hn1. split; reflexivity.
    + destruct (video || audio).
      * destruct (acquire_then_attach E (simpleConstraints video audio) w1)
          as [d2 [H2 F2]].
        destruct (attach_effects_no_request d2 F2) as [Hn2 _].
        destruct ((acquire E (simpleConstraints video audio) ;;
                   attach_local_tracks E ;; notify_local_stream) w1)
          as [[[] | e2] w2]; simpl in H2; simpl;
          rewrite H2, H1, <- app_assoc, skipn_app_length; simpl;
          rewrite filter_app; simpl; rewrite Hn1, Hn2; split; reflexivity.
      * unfold throw. simpl. rewrite H1, skipn_app_length. simpl. rewrite Hn1.
        split; reflexivity.
  - intros error H. now rewrite (acquire_refused E _ _ w error H).
  - intros stream H Hpc. exact (acquire_unattached E _ w stream H Hpc).
  - unfold effects_of, run, startLocalStream, try_catch.
    destruct (acquire_then_attach E (constraints video audio) w) as [d1 [H1 F1]].
    destruct (attach_effects_no_request d1 F1) as [_ Hl1].
    destruct ((acquire E (constraints video audio) ;;
               attach_local_tracks E ;; notify_local_stream) w) as [[[] | e] w1];
      simpl in H1.
    + simpl. rewrite H1, skipn_app_length. simpl. exact Hl1.
    + destruct (video || audio).
      * destruct (acquire_then_attach E (simpleConstraints video audio) w1)
          as [d2 [H2 F2]].
        destruct (attach_effects_no_request d2 F2) as [_ Hl2].
        destruct ((acquire E (simpleConstraints video audio) ;;
                   attach_local_tracks E ;; notify_local_stream) w1)
          as [[[] | e2] w2]; simpl in H2; simpl;
          rewrite H2, H1, <- app_assoc, skipn_app_length; simpl;
          rewrite forallb_app; simpl; rewrite Hl1, Hl2; reflexivity.
      * unfold throw. simpl. rewrite H1, skipn_app_length. simpl. exact Hl1.
Qed.

(* ===================================================================== *)
(** * The identifiers chosen by the call screen *)
(* ===================================================================== *)

Lemma screen_userId_not_empty (param : option string) (now : Z) :
  VideoCallScreen.userId param now <> "".
Proof.
  unfold VideoCallScreen.userId. destruct param as [s |].
  - destruct (s =? "")%string eqn:Hs.
    + discriminate.
    + now apply String.eqb_neq.
  - discriminate.
Qed.

(** X18: the identifier the call screen hands to the service is never
    empty, so two services started from the screen with different
    identifiers always take opposite roles on each other's offers, the
    polite one being the one with the greater identifier. *)
Theorem screen_identifiers_take_opposite_roles (E : Engine)
    (pa pb : option string) (na nb : Z) (wa wb : World) (da db : Envelope)
    (pca pcb : PeerConnection) :
  VideoCallScreen.userId pa na <> VideoCallScreen.userId pb nb ->
  userId (this wa) = VideoCallScreen.userId pa na ->
  userId (this wb) = VideoCallScreen.userId pb nb ->
  peerConnection (this wa) = Some pca ->
  peerConnection (this wb) = Some pcb ->
  sdp_valid da = true -> sdp_valid db = true ->
  assoc "sender" da = JStr (VideoCallScreen.userId pb nb) ->
  assoc "sender" db = JStr (VideoCallScreen.userId pa na) ->
  isPolite (this (run (handleOffer E da) wa))
    = negb (isPolite (this (run (handleOffer E db) wb)))
  /\ isPolite (this (run (handleOffer E da) wa))
     = string_gt (VideoCallScreen.userId pa na) (VideoCallScreen.userId pb nb).
Proof.
  intros Hne Ua Ub Pa Pb Va Vb Sa Sb.
  rewrite (handleOffer_isPolite E da wa pca Pa Va).
  rewrite (handleOffer_isPolite E db wb pcb Pb Vb).
  rewrite Ua, Ub, Sa, Sb.
  rewrite (polite_nonempty _ _ (screen_userId_not_empty pa na)
             (screen_userId_not_empty pb nb)).
  rewrite (polite_nonempty _ _ (screen_userId_not_empty pb nb)
             (screen_userId_not_empty pa na)).
  split; [now apply string_gt_asym | reflexivity].
Qed.

Lemma screen_identifiers_take_opposite_roles_witness :
  isPolite (this (run (handleOffer ModelEngine.engine (offer_from "user-1700000000000"))
                      (in_call "bob")))
    = negb (isPolite (this (run (handleOffer ModelEngine.engine (offer_from "bob"))
                                (in_call "user-1700000000000"))))
  /\ isPolite (this (run (handleOffer ModelEngine.engine
                            (offer_from "user-1700000000000"))
                         (in_call "bob")))
     = string_gt "bob" "user-1700000000000".
Proof.
  refine (screen_identifiers_take_opposite_roles ModelEngine.engine
            (Some "bob") None 0 1700000000000
            (in_call "bob") (in_call "user-1700000000000")
            (offer_from "user-1700000000000") (offer_from "bob")
            (pc_of (in_call "bob")) (pc_of (in_call "user-1700000000000"))
            _ _ _ _ _ _ _ _ _).
  - vm_compute. discriminate.
  - vm_compute. reflexivity.
  - vm_compute. reflexivity.
  - vm_compute. reflexivity.
  - vm_compute. reflexivity.
  - vm_compute. reflexivity.
  - vm_compute. reflexivity.
  - vm_compute. reflexivity.
  - vm_compute. reflexivity.
Defined.

(* ===================================================================== *)
(** * The revision without transceivers *)
(* ===================================================================== *)

(** X19: the revision in [src/services/WebRTCService.ts] never creates a
    transceiver and never calls [replaceTrack] (every track goes through
    [addTrack]), and it never writes the transceiver references nor the
    negotiation flags [makingOffer], [ignoreOffer] and [isPolite]. *)
Theorem Legacy_uses_no_transceiver (E : Engine) (op : LegacyOp) (w : World) :
  forallb no_transceiver_use (effects_of (Legacy_exec E op) w) = true
  /\ transceiver_fields (this (run (Legacy_exec E op) w)) = transceiver_fields (this w).
Proof.
  split.
  - apply appends_effects_of.
    assert (H : preserves (trace_frame no_transceiver_use) (Legacy_exec E op))
      by (destruct op; framed).
    apply H.
  - assert (H : preserves (field_frame transceiver_fields) (Legacy_exec E op))
      by (destruct op; frame; simpl; intros; reflexivity).
    apply (H w).
Qed.

(* ===================================================================== *)
(** * The offer of the negotiationneeded listener *)
(* ===================================================================== *)

(** X20: when the engine creates the offer and accepts it as local
    description, the [negotiationneeded] listener emits one [offer]
    envelope whose [sdp] is the local description the connection then
    holds (not the object [createOffer] returned), addressed with the room
    and the user; it ends with [makingOffer] false. *)
Theorem negotiationneeded_sends_local_description (E : Engine) (w : World)
    (pc : PeerConnection) (sk : Socket) (offer : JsVal) (st : PcState) :
  peerConnection (this w) = Some pc ->
  socket (this w) = Some sk ->
  pc_createOffer E (pc_state pc) JUndefined = Ok offer ->
  setLocalDescription E (pc_state pc) offer = Ok st ->
  effects_of (onnegotiationneeded E) w
    = [CreateOffer (pc_id pc) JUndefined;
       SetLocalDescription (pc_id pc) offer;
       SocketEmit "offer"
         (JObj [("roomId", JStr (roomId (this w)));
                ("sdp", localDescription st);
                ("sender", JStr (userId (this w)))])]
  /\ this (run (onnegotiationneeded E) w)
     = set_makingOffer false
         (set_peerConnection (Some (mkPC (pc_id pc) st)) (this w)).
Proof.
  intros Hpc Hsk Hoffer Hlocal.
  unfold effects_of, run, onnegotiationneeded, try_finally, try_catch, bind,
    get_this, modify, await, pc_ask, pc_do, socket_emit, bind, get_this, perform,
    lift, throw, ret.
  simpl. rewrite Hpc. simpl. rewrite Hpc. simpl. rewrite Hoffer. simpl.
  rewrite Hpc. simpl. rewrite Hlocal. simpl. rewrite Hsk. simpl.
  rewrite <- !app_assoc. simpl. rewrite skipn_app_length. split; reflexivity.
Qed.

Lemma negotiationneeded_sends_local_description_witness :
  effects_of (onnegotiationneeded ModelEngine.engine) (in_call "bob")
    = [CreateOffer 0 JUndefined;
       SetLocalDescription 0 ModelEngine.offer_sdp;
       SocketEmit "offer"
         (JObj [("roomId", JStr "room");
                ("sdp", ModelEngine.offer_sdp);
                ("sender", JStr "bob")])].
Proof.
  refine (proj1 (negotiationneeded_sends_local_description ModelEngine.engine
                   (in_call "bob") (pc_of (in_call "bob"))
                   (mkSocket "wss://signal" true) ModelEngine.offer_sdp
                   (ok_or fresh_pc_state
                      (setLocalDescription ModelEngine.engine
                         (pc_state (pc_of (in_call "bob"))) ModelEngine.offer_sdp))
                   _ _ _ _)).
  - vm_compute. reflexivity.
  - vm_compute. reflexivity.
  - vm_compute. reflexivity.
  - vm_compute. reflexivity.
Defined.

(** X21: when the engine fails to create the offer, or rejects it as local
    description, the [negotiationneeded] listener emits nothing, returns
    normally and ends with [makingOffer] false, so a later attempt is not
    blocked. *)
Theorem negotiationneeded_failure_is_silent (E : Engine) (w : World)
    (pc : PeerConnection) (error : JsError) :
  peerConnection (this w) = Some pc ->
  pc_createOffer E (pc_state pc) JUndefined = Throw error
  \/ (exists offer, pc_createOffer E (pc_state pc) JUndefined = Ok offer
                    /\ setLocalDescription E (pc_state pc) offer = Throw error) ->
  fst (onnegotiationneeded E w) = Ok tt
  /\ existsb is_SocketEmit (effects_of (onnegotiationneeded E) w) = false
  /\ this (run (onnegotiationneeded E) w) = set_makingOffer false (this w).
Proof.
  intros Hpc Hfail.
  unfold effects_of, run, onnegotiationneeded, try_finally, try_catch, bind,
    get_this, modify, await, pc_ask, pc_do, socket_emit, bind, get_this, perform,
    lift, throw, ret.
  simpl. rewrite Hpc. simpl. rewrite Hpc. simpl.
  destruct Hfail as [Hc | [offer [Hc Hs]]]; rewrite Hc; simpl.
  - rewrite skipn_app_length. repeat split.
  - rewrite Hpc. simpl. rewrite Hs. simpl.
    rewrite <- !app_assoc. simpl. rewrite skipn_app_length. repeat split.
Qed.

Lemma negotiationneeded_failure_is_silent_witness :
  fst (onnegotiationneeded refusing_engine (in_call "bob")) = Ok tt
  /\ existsb is_SocketEmit
       (effects_of (onnegotiationneeded refusing_engine) (in_call "bob")) = false
  /\ this (run (onnegotiationneeded refusing_engine) (in_call "bob"))
     = set_makingOffer false (this (in_call "bob")).
Proof.
  apply (negotiationneeded_failure_is_silent refusing_engine (in_call "bob")
           (pc_of (in_call "bob")) out_of_memory).
  - vm_compute. reflexivity.
  - left. reflexivity.
Defined.

(** X22: whatever the engine answers, the [negotiationneeded] listener has
    [makingOffer] true at every point where it is suspended and false when
    it is done; after a run no world of the service is left with the flag
    up. *)
Theorem negotiationneeded_holds_makingOffer (E : Engine) (w : World) :
  makingOffer (this (run (onnegotiationneeded E) w)) = false
  /\ Forall (fun s => makingOffer s = true)
            (suspensions_of (onnegotiationneeded E) w)
  /\ (is_some (peerConnection (this w)) = true ->
        1 <= List.length (suspensions_of (onnegotiationneeded E) w)).
Proof.
  destruct (onnegotiationneeded_holds_flag E w) as [_ [H1 H2]].
  repeat split; try assumption.
  intros Hpc.
  unfold suspensions_of, run, onnegotiationneeded, try_finally, try_catch, bind,
    get_this, modify, await, pc_ask, pc_do, socket_emit, bind, get_this, perform,
    lift, throw, ret.
  simpl. destruct (peerConnection (this w)) as [pc |] eqn:Hp; [| discriminate Hpc].
  simpl. rewrite ?Hp. simpl.
  destruct (pc_createOffer E (pc_state pc) JUndefined) as [offer | e]; simpl;
    rewrite ?Hp; simpl.
  - destruct (setLocalDescription E (pc_state pc) offer) as [st | e]; simpl.
    + destruct (socket (this w)); simpl;
        rewrite <- app_assoc, skipn_app_length; simpl; lia.
    + rewrite <- app_assoc, skipn_app_length. simpl. lia.
  - rewrite skipn_app_length. simpl. lia.
Qed.

Lemma negotiationneeded_holds_makingOffer_witness :
  1 <= List.length (suspensions_of (onnegotiationneeded ModelEngine.engine)
                                   (in_call "bob")).
Proof.
  refine (proj2 (proj2 (negotiationneeded_holds_makingOffer ModelEngine.engine
                          (in_call "bob"))) _).
  vm_compute. reflexivity.
Defined.

(** X23: [createOffer] never writes a negotiation flag: [makingOffer],
    [ignoreOffer] and [isPolite] have, when it is done and at each of its
    suspension points, the values they had at the call, on every engine and
    whether it returns or throws. *)
Theorem createOffer_writes_no_flag (E : Engine) (w : World) :
  let flags s := (makingOffer s, ignoreOffer s, isPolite s) in
  flags (this (run (createOffer E) w)) = flags (this w)
  /\ Forall (fun s => flags s = flags (this w)) (suspensions_of (createOffer E) w).
Proof.
  intros flags.
  assert (H : preserves (field_frame flags) (createOffer E))
    by (frame; simpl; intros; reflexivity).
  destruct (H w) as [He [d [Hd Hf]]]. split; [exact He |].
  unfold suspensions_of, run. rewrite Hd, skipn_app_length. exact Hf.
Qed.

(** X24: [isInitialized] tells whether [initialize] succeeded: started on a
    service that is not initialised, [initialize] returns normally exactly
    when it leaves [isInitialized] set. *)
Theorem initialized_iff_success (E : Engine) (server room user : string) (cb : nat)
    (w : World) :
  isInitialized (this w) = false ->
  (fst (initialize E server room user cb w) = Ok tt
   <-> isInitialized (this (run (initialize E server room user cb) w)) = true).
Proof.
  intros Hi. split.
  - intros Hok. unfold run.
    destruct (initialize E server room user cb w) as [r w'] eqn:Heq.
    simpl in Hok. subst r.
    exact (initialize_sets_flag E server room user cb w w' Heq).
  - pose (w0 := mkWorld (set_callbacks (Some cb)
                           (set_userId user (set_roomId room (this w))))
                        (trace w) (suspended w) (next_pc w) (now w)).
    assert (Hinit : initialize E server room user cb w
                    = try_catch
                        (await (initializeSocket E server) ;;
                         await (initializePeerConnection E) ;;
                         modify (set_isInitialized true))
                        (fun error => throw error) w0).
    { unfold initialize. unfold bind at 1, get_this. rewrite Hi. reflexivity. }
    assert (H1 : preserves (field_frame isInitialized)
                           (await (initializeSocket E server)))
      by (frame; simpl; intros; reflexivity).
    assert (H2 : preserves (field_frame isInitialized)
                           (await (initializePeerConnection E)))
      by (frame; simpl; intros; reflexivity).
    unfold run. rewrite Hinit. unfold try_catch.
    destruct (H1 w0) as [E1 _].
    destruct (await (initializeSocket E server) w0) as [[[] | e1] w1] eqn:Hs.
    + rewrite (bind_ok _ _ w0 w1 tt Hs).
      destruct (H2 w1) as [E2 _].
      destruct (await (initializePeerConnection E) w1) as [[[] | e2] w2] eqn:Hp.
      * rewrite (bind_ok _ _ w1 w2 tt Hp). reflexivity.
      * rewrite (bind_throw _ _ w1 w2 e2 Hp). simpl in *.
        rewrite E2, E1, Hi. discriminate.
    + rewrite (bind_throw _ _ w0 w1 e1 Hs). simpl in *.
      rewrite E1, Hi. discriminate.
Qed.

Lemma initialized_iff_success_witness :
  fst (initialize ModelEngine.engine "wss://signal" "room" "bob" 0 new_world) = Ok tt
  <-> isInitialized
        (this (run (initialize ModelEngine.engine "wss://signal" "room" "bob" 0)
                   new_world)) = true.
Proof.
  apply (initialized_iff_success ModelEngine.engine "wss://signal" "room" "bob" 0
           new_world).
  reflexivity.
Defined.

(** X25: in [src/services/WebRTCService.ts] a valid offer that finds a
    connection without remote description is answered: once local media is
    in place and provided the engine accepts each step, the handler sets
    the offer as remote description, creates an answer, sets it as local
    description and emits the [answer] envelope with the room and the user,
    in that order; it never looks at who sent the offer. *)
Theorem Legacy_first_offer_answered (E : Engine) (data : Envelope) (w w1 : World)
    (pc pc1 : PeerConnection) (st1 st2 : PcState) (answer : JsVal) :
  peerConnection (this w) = Some pc ->
  sdp_valid data = true ->
  truthy (remoteDescription (pc_state pc)) = false ->
  Legacy.ensure_local_stream E w = (Ok tt, w1) ->
  peerConnection (this w1) = Some pc1 ->
  is_some (socket (this w1)) = true ->
  setRemoteDescription E (pc_state pc1) (assoc "sdp" data) = Ok st1 ->
  pc_createAnswer E st1 = Ok answer ->
  setLocalDescription E st1 answer = Ok st2 ->
  fst (Legacy.handleOffer E data w) = Ok tt
  /\ this (run (Legacy.handleOffer E data) w)
     = set_peerConnection (Some (mkPC (pc_id pc1) st2)) (this w1)
  /\ trace (run (Legacy.handleOffer E data) w)
     = trace w1 ++ [SetRemoteDescription (pc_id pc1) (assoc "sdp" data);
                    CreateAnswer (pc_id pc1);
                    SetLocalDescription (pc_id pc1) answer;
                    SocketEmit "answer"
                      (JObj [("roomId", JStr (roomId (this w1)));
                             ("sdp", answer);
                             ("sender", JStr (userId (this w1)))])].
Proof.
  intros Hpc Hv Hr Hens Hpc1 Hsock Hrem Hans Hloc.
  assert (Heq : Legacy.handleOffer E data w
                = try_catch (Legacy.accept_offer E data)
                            (Legacy.recover_on_sdp_error E) w).
  { unfold Legacy.handleOffer, try_catch, bind at 1, get_this.
    rewrite Hpc, Hv, Hr. reflexivity. }
  assert (Hacc : try_catch (Legacy.accept_offer E data)
                           (Legacy.recover_on_sdp_error E) w
                 = (Ok tt,
                    mkWorld (set_peerConnection (Some (mkPC (pc_id pc1) st2)) (this w1))
                            (trace w1
                               ++ [SetRemoteDescription (pc_id pc1) (assoc "sdp" data);
                                   CreateAnswer (pc_id pc1);
                                   SetLocalDescription (pc_id pc1) answer;
                                   SocketEmit "answer"
                                     (JObj [("roomId", JStr (roomId (this w1)));
                                            ("sdp", answer);
                                            ("sender", JStr (userId (this w1)))])])
                            (suspended w1
                               ++ [set_peerConnection (Some (mkPC (pc_id pc1) st1))
                                                      (this w1);
                                   set_peerConnection (Some (mkPC (pc_id pc1) st1))
                                                      (this w1);
                                   set_peerConnection (Some (mkPC (pc_id pc1) st2))
                                                      (this w1)])
                            (next_pc w1) (now w1))).
  { unfold try_catch, Legacy.accept_offer. unfold bind at 1. rewrite Hens.
    unfold bind, await, pc_do, pc_ask, socket_emit, bind, get_this, perform,
      modify, lift, throw, ret.
    simpl. rewrite Hpc1. simpl. rewrite Hrem. simpl. rewrite Hans. simpl.
    rewrite Hloc. simpl.
    destruct (socket (this w1)); [| discriminate Hsock]. simpl.
    repeat rewrite <- app_assoc. reflexivity. }
  unfold run. rewrite Heq, Hacc. repeat split.
Qed.

Lemma Legacy_first_offer_answered_witness :
  fst (Legacy.handleOffer ModelEngine.engine (offer_from "alice")
         (legacy_in_call "bob")) = Ok tt.
Proof.
  pose (w := legacy_in_call "bob").
  pose (st1 := ok_or fresh_pc_state
                 (setRemoteDescription ModelEngine.engine (pc_state (pc_of w))
                    (assoc "sdp" (offer_from "alice")))).
  pose (answer := ok_or JNull (pc_createAnswer ModelEngine.engine st1)).
  pose (st2 := ok_or fresh_pc_state
                 (setLocalDescription ModelEngine.engine st1 answer)).
  refine (proj1 (Legacy_first_offer_answered ModelEngine.engine (offer_from "alice")
                   w w (pc_of w) (pc_of w) st1 st2 answer _ _ _ _ _ _ _ _ _)).
  - vm_compute. reflexivity.
  - reflexivity.
  - vm_compute. reflexivity.
  - vm_compute. reflexivity.
  - vm_compute. reflexivity.
  - vm_compute. reflexivity.
  - vm_compute. reflexivity.
  - vm_compute. reflexivity.
  - vm_compute. reflexivity.
Defined.
